(** * MU-ty/translator: the translation orchestrator and the configuration manager

    A shallow embedding of [src/translate/src/translator.py]
    ([TranslationOutputParser], [SmartTranslator]) and of
    [ConfigManager.get_openai_config] from
    [src/translate/src/config_manager.py], with the properties of the
    specification stated and settled against it.

    Python values are modelled as follows.
    - [str] is a list of Unicode code points ([N]); [strip], [lstrip],
      [startswith], [split] and [join] follow the CPython behaviour of the
      methods of the same name.
    - [Optional[str]] is [option str]; truthiness ([if x:], [not x]) is
      [truthy].
    - dictionaries with a fixed set of keys (the comparison result, the
      stats) are records; the [ConfigParser] and the process environment are
      finite maps.
    - the language model, the summary generator and the chunker are external:
      they are oracles over an abstract world state, and every call is
      recorded, with its outcome, in the trace of the run.
    - [print] and the [tqdm] progress bar only write to the terminal and are
      left out. *)

From Stdlib Require Import NArith ZArith Bool Lia String Ascii.
From stdpp Require Import base list gmap.

Local Open Scope list_scope.

(** ** Python strings *)

Module PyStr.

(** A Unicode code point. *)
Abbreviation char := N (only parsing).
Abbreviation str := (list N) (only parsing).

(** An ASCII literal, as the list of its code points. *)
Definition lit (s : string) : str :=
  List.map N_of_ascii (list_ascii_of_string s).

(** [str.isspace] on one character, which is also the set of characters
    [str.strip] removes: the code points CPython's [Py_UNICODE_ISSPACE]
    accepts. *)
Definition isspace (c : char) : bool :=
  ((9 <=? c) && (c <=? 13) || (28 <=? c) && (c <=? 32)
   || (c =? 133) || (c =? 160) || (c =? 5760)
   || (8192 <=? c) && (c <=? 8202)
   || (c =? 8232) || (c =? 8233) || (c =? 8239) || (c =? 8287)
   || (c =? 12288))%N.

(** [s.lstrip()] *)
Fixpoint lstrip (s : str) : str :=
  match s with
  | [] => []
  | c :: s' => if isspace c then lstrip s' else s
  end.

(** [s.rstrip()] *)
Definition rstrip (s : str) : str := rev (lstrip (rev s)).

(** [s.strip()] *)
Definition strip (s : str) : str := rstrip (lstrip s).

(** [s.startswith(prefix)] *)
Fixpoint startswith (s prefix : str) {struct prefix} : bool :=
  match prefix, s with
  | [], _ => true
  | _ :: _, [] => false
  | p :: prefix', c :: s' => (c =? p)%N && startswith s' prefix'
  end.

(** [a == b] *)
Fixpoint eqb (a b : str) : bool :=
  match a, b with
  | [], [] => true
  | x :: a', y :: b' => (x =? y)%N && eqb a' b'
  | _, _ => false
  end.

(** Prepends [c] to the piece being read. *)
Definition cons_piece (c : char) (pieces : list str) : list str :=
  match pieces with
  | [] => [[c]]
  | p :: ps => (c :: p) :: ps
  end.

(** [s.split(sep)] for a non-empty [sep]: the text is cut at the
    occurrences of [sep], found from the left and not overlapping.
    [skip] counts the characters of a separator just found that are still
    to be passed over. *)
Fixpoint split_from (sep : str) (skip : nat) (s : str) : list str :=
  match s with
  | [] => [[]]
  | c :: s' =>
      match skip with
      | S k => split_from sep k s'
      | O =>
          if startswith s sep
          then [] :: split_from sep (length sep - 1) s'
          else cons_piece c (split_from sep 0 s')
      end
  end.

Definition split (s sep : str) : list str := split_from sep 0 s.

(** [sep.join(pieces)] *)
Fixpoint join (sep : str) (pieces : list str) : str :=
  match pieces with
  | [] => []
  | [p] => p
  | p :: rest => p ++ sep ++ join sep rest
  end.

(** Truthiness of an [Optional[str]]: [None] and the empty string are
    false. *)
Definition truthy (x : option str) : bool :=
  match x with
  | Some (_ :: _) => true
  | _ => false
  end.

(** Truthiness of a [str]. *)
Definition nonempty (s : str) : bool :=
  match s with
  | [] => false
  | _ :: _ => true
  end.

Definition NEWLINE : str := [10%N].
Definition SPACE : char := 32%N.
Definition TAB : char := 9%N.

End PyStr.

Import PyStr.

(** ** The translator ([translator.py]) *)

Module SmartTranslator.

(** What a call can raise. [except Exception] catches the first kind only,
    a bare [except:] catches both. *)
Inductive exn :=
| PyException (msg : str)       (* an instance of [Exception]: network, authentication, rate limit ... *)
| PyBaseException (msg : str).  (* [KeyboardInterrupt], [SystemExit]: outside [Exception] *)

Definition is_Exception (e : exn) : bool :=
  match e with
  | PyException _ => true
  | PyBaseException _ => false
  end.

(** The outcome of a call: a value or a raised exception. *)
Inductive result (A : Type) :=
| Return (a : A)
| Raise (e : exn).
Arguments Return {A} a.
Arguments Raise {A} e.

(** [TextChunk] of [text_chunker.py]; the translator reads these two
    attributes and builds chunks as [TextChunk(content, 'paragraph')]. *)
Record TextChunk := mkTextChunk { content : str; chunk_type : str }.

(** The dictionary [compare_summaries] returns. Its keys are those of the
    specification's ComparisonResult; the translator reads the first two. *)
Record ComparisonResult := mkComparisonResult {
  completeness_score : Z;
  missing_content : str;
  suggestions : str
}.

(** The message a chain sends to the model: the template that is filled in,
    with the values of its placeholders. *)
Inductive prompt :=
| translation_template (content : str)
| retranslation_template (original_text missing_content : str).

(** 'code' *)
Definition CODE : str := lit "code".
(** '#' and '//' *)
Definition HASH : str := lit "#".
Definition SLASHES : str := lit "//".
(** the sentinel of [missing_content]: U+65E0 *)
Definition NONE_MISSING : str := [26080%N].
(** the prefix of the failure marker of [translate_chunk], the six
    characters U+7FFB U+8BD1 U+5931 U+8D25 ':' ' ' *)
Definition FAILED : str := [32763%N; 35793%N; 22833%N; 36133%N; 58%N; 32%N].

(** [TranslationOutputParser.parse]: each of its three branches strips the
    text it extracts. *)
Definition parse (text : str) : str := strip text.

Section Run.

Context {W Summary : Type}.

(** One call made to a collaborator during a run, with its arguments and
    its outcome. *)
Inductive event :=
| EvLLM (p : prompt) (r : result str)
| EvOriginalSummary (text : str) (r : result Summary)
| EvTranslatedSummary (text : str) (r : result Summary)
| EvCompare (original translated : Summary) (r : result ComparisonResult)
| EvChunk (text : str) (r : result (list TextChunk)).

(** The collaborators of a [SmartTranslator]: the model behind both chains
    ([self.llm]), [self.summary_generator] and [self.chunker]. Each call
    reads and changes the state of the world and returns or raises. *)
Class Collaborators := {
  llm : prompt -> W -> result str * W;
  generate_original_summary : str -> W -> result Summary * W;
  generate_translated_summary : str -> W -> result Summary * W;
  compare_summaries : Summary -> Summary -> W -> result ComparisonResult * W;
  chunk_text : str -> W -> result (list TextChunk) * W
}.

(** A computation: from a world to an outcome, the world after it and the
    calls it made, oldest first. *)
Definition M (A : Type) : Type := W -> result A * W * list event.

Definition ret {A} (a : A) : M A := fun w => (Return a, w, []).

(** What a computation gives when the calls [t1] were made before it. *)
Definition after {A} (t1 : list event) (x : result A * W * list event)
  : result A * W * list event :=
  let '(r, w2, t2) := x in (r, w2, t1 ++ t2).

Definition bind {A B} (m : M A) (f : A -> M B) : M B :=
  fun w =>
    match m w with
    | (Return a, w1, t1) => after t1 (f a w1)
    | (Raise e, w1, t1) => (Raise e, w1, t1)
    end.

(** [try: body / except Exception as e: handler] *)
Definition try_except_Exception {A} (body : M A) (handler : exn -> M A) : M A :=
  fun w =>
    match body w with
    | (Return a, w1, t1) => (Return a, w1, t1)
    | (Raise e, w1, t1) =>
        if is_Exception e
        then after t1 (handler e w1)
        else (Raise e, w1, t1)
    end.

(** [try: body / except: handler] *)
Definition try_except {A} (body : M A) (handler : M A) : M A :=
  fun w =>
    match body w with
    | (Return a, w1, t1) => (Return a, w1, t1)
    | (Raise _, w1, t1) => after t1 (handler w1)
    end.

(** A call to a collaborator, recorded in the trace. *)
Definition call {A} (f : W -> result A * W) (ev : result A -> event) : M A :=
  fun w => let '(r, w1) := f w in (r, w1, [ev r]).

(** [acc = []; for x in xs: acc.append(body(x))] *)
Fixpoint for_append {A B} (xs : list A) (body : A -> M B) (acc : list B) : M (list B) :=
  match xs with
  | [] => ret acc
  | x :: xs' => bind (body x) (fun y => for_append xs' body (acc ++ [y]))
  end.

End Run.

Arguments event : clear implicits.
Arguments after {W Summary A} t1 x.
Arguments Collaborators : clear implicits.
Arguments M : clear implicits.

Declare Scope py_scope.
Delimit Scope py_scope with py.
Notation "'do' x <- m ;; k" := (bind m (fun x => k))
  (at level 10, x name, m at level 99, k at level 200) : py_scope.
Notation "'do' ' pat <- m ;; k" := (bind m (fun x => match x with pat => k end))
  (at level 10, pat pattern, m at level 99, k at level 200) : py_scope.

Local Open Scope py_scope.

(** The dictionary [translate_content] returns next to the translation. *)
Record Stats (Summary : Type) := mkStats {
  st_original_summary : Summary;
  st_translated_summary : Summary;
  st_comparison_result : ComparisonResult;
  st_chunk_count : nat;
  st_completeness_score : Z
}.
Arguments mkStats {Summary}.
Arguments st_original_summary {Summary}.
Arguments st_translated_summary {Summary}.
Arguments st_comparison_result {Summary}.
Arguments st_chunk_count {Summary}.
Arguments st_completeness_score {Summary}.

Section Methods.

Context {W Summary : Type} {C : Collaborators W Summary}.

Local Abbreviation M := (M W Summary).

(** [self.translation_chain.invoke({"content": content})]: the template,
    the model, the output parser. *)
Definition translation_chain_invoke (content : str) : M str :=
  do text <- call (llm (translation_template content))
                  (EvLLM (translation_template content)) ;;
  ret (parse text).

(** [self.retranslation_chain.invoke({"original_text": ..., "missing_content": ...})] *)
Definition retranslation_chain_invoke (original_text missing_content : str) : M str :=
  do text <- call (llm (retranslation_template original_text missing_content))
                  (EvLLM (retranslation_template original_text missing_content)) ;;
  ret (parse text).

(** [line.strip().startswith('#') or line.strip().startswith('//')] *)
Definition is_comment_line (line : str) : bool :=
  startswith (strip line) HASH || startswith (strip line) SLASHES.

(** The body of the loop of [_translate_code_block]: the value appended to
    [translated_lines] for [line]. *)
Definition translate_code_line (line : str) : M str :=
  if is_comment_line line then
    try_except
      (do comment_translation <- translation_chain_invoke (strip line) ;;
       let indent := (length line - length (lstrip line))%nat in
       ret (replicate indent SPACE ++ comment_translation))
      (ret line)
  else
    ret line.

Definition _translate_code_block (code_content : str) : M str :=
  let lines := split code_content NEWLINE in
  do translated_lines <- for_append lines translate_code_line [] ;;
  ret (join NEWLINE translated_lines).

Definition translate_chunk (chunk : TextChunk) : M str :=
  try_except_Exception
    (if PyStr.eqb (chunk_type chunk) CODE then
       _translate_code_block (content chunk)
     else
       do translation <- translation_chain_invoke (content chunk) ;;
       ret translation)
    (fun e => ret (FAILED ++ content chunk)).

Definition _merge_translated_chunks (translated_chunks : list str) : str :=
  join (NEWLINE ++ NEWLINE)
       (List.map strip (List.filter (fun chunk => nonempty (strip chunk)) translated_chunks)).

Definition _retranslate_with_focus (original_content missing_content : str) : M (option str) :=
  try_except_Exception
    (do retranslated <- retranslation_chain_invoke original_content missing_content ;;
     ret (Some retranslated))
    (fun e => ret None).

Definition translate_content (content : str) : M (str * Stats Summary) :=
  do original_summary <- call (generate_original_summary content) (EvOriginalSummary content) ;;
  do chunks <- call (chunk_text content) (EvChunk content) ;;
  do translated_chunks <- for_append chunks translate_chunk [] ;;
  let translated_content := _merge_translated_chunks translated_chunks in
  do translated_summary <- call (generate_translated_summary translated_content)
                                (EvTranslatedSummary translated_content) ;;
  do comparison_result <- call (compare_summaries original_summary translated_summary)
                               (EvCompare original_summary translated_summary) ;;
  do '(translated_content, translated_summary, comparison_result) <-
    (if (completeness_score comparison_result <? 8)%Z
        && negb (PyStr.eqb (missing_content comparison_result) NONE_MISSING)
     then
       do retranslated_content <-
         _retranslate_with_focus content (missing_content comparison_result) ;;
       (* [if retranslated_content:] holds for a string that is not empty *)
       match retranslated_content with
       | Some ((_ :: _) as retranslated) =>
           let translated_content := retranslated in
           do translated_summary <- call (generate_translated_summary translated_content)
                                         (EvTranslatedSummary translated_content) ;;
           do comparison_result <- call (compare_summaries original_summary translated_summary)
                                        (EvCompare original_summary translated_summary) ;;
           ret (translated_content, translated_summary, comparison_result)
       | _ => ret (translated_content, translated_summary, comparison_result)
       end
     else
       ret (translated_content, translated_summary, comparison_result)) ;;
  let stats := {|
    st_original_summary := original_summary;
    st_translated_summary := translated_summary;
    st_comparison_result := comparison_result;
    st_chunk_count := length chunks;
    st_completeness_score := completeness_score comparison_result
  |} in
  ret (translated_content, stats).

(** *** Runs and their traces *)

(** A call of the retranslation chain. *)
Definition is_retranslation_call (ev : event Summary) : bool :=
  match ev with
  | EvLLM (retranslation_template _ _) _ => true
  | _ => false
  end.

(** A call of the translation chain. *)
Definition is_translation_call (ev : event Summary) : bool :=
  match ev with
  | EvLLM (translation_template _) _ => true
  | _ => false
  end.

Definition is_translated_summary_call (ev : event Summary) : bool :=
  match ev with
  | EvTranslatedSummary _ _ => true
  | _ => false
  end.

Definition is_compare_call (ev : event Summary) : bool :=
  match ev with
  | EvCompare _ _ _ => true
  | _ => false
  end.

(** How many calls of a kind a run made. *)
Definition calls (kind : event Summary -> bool) (tr : list (event Summary)) : nat :=
  length (List.filter kind tr).

(** The prompts sent to the model, oldest first. *)
Definition prompts_sent (tr : list (event Summary)) : list prompt :=
  flat_map (fun ev => match ev with EvLLM p _ => [p] | _ => [] end) tr.

(** The first translated summary found in a list of events, with the text
    it was made from. *)
Fixpoint find_translated_summary (tr : list (event Summary)) : option (str * Summary) :=
  match tr with
  | [] => None
  | EvTranslatedSummary text (Return s) :: _ => Some (text, s)
  | _ :: tr' => find_translated_summary tr'
  end.

(** The first comparison found in a list of events, with the two summaries
    compared. *)
Fixpoint find_comparison (tr : list (event Summary))
  : option (Summary * Summary * ComparisonResult) :=
  match tr with
  | [] => None
  | EvCompare o t (Return cr) :: _ => Some (o, t, cr)
  | _ :: tr' => find_comparison tr'
  end.

(** The most recent translated summary and comparison of a run. *)
Definition last_translated_summary (tr : list (event Summary)) :=
  find_translated_summary (rev tr).
Definition last_comparison (tr : list (event Summary)) :=
  find_comparison (rev tr).

(** The condition of the focused-retranslation branch, line 177. *)
Definition incomplete (cr : ComparisonResult) : Prop :=
  (completeness_score cr < 8)%Z /\ missing_content cr <> NONE_MISSING.

(** The run of [translate_content content] from [w] gets as far as the first
    comparison: the original summary [os], the chunks, the translations of
    the chunks merged into [merged], its summary [ts] and the comparison
    result [cr], in the world [w5] and with the calls [t5] made so far. *)
Definition first_pass (content : str) (w : W)
    (os : Summary) (chunks : list TextChunk) (merged : str)
    (ts : Summary) (cr : ComparisonResult) (w5 : W) (t5 : list (event Summary)) : Prop :=
  exists w1 w2 translated_chunks w3 t3 w4,
    generate_original_summary content w = (Return os, w1) /\
    chunk_text content w1 = (Return chunks, w2) /\
    for_append chunks translate_chunk [] w2 = (Return translated_chunks, w3, t3) /\
    merged = _merge_translated_chunks translated_chunks /\
    generate_translated_summary merged w3 = (Return ts, w4) /\
    compare_summaries os ts w4 = (Return cr, w5) /\
    t5 = [EvOriginalSummary content (Return os); EvChunk content (Return chunks)]
           ++ t3
           ++ [EvTranslatedSummary merged (Return ts); EvCompare os ts (Return cr)].

(** Lines 177 to 204 of [translate_content] on their own, as a function of
    the variables they read: what a run does once the first comparison is
    made. [translate_content_split] shows that [translate_content] ends
    with it. *)
Definition second_pass (content : str) (original_summary : Summary)
    (chunks : list TextChunk) (translated_content : str)
    (translated_summary : Summary) (comparison_result : ComparisonResult)
  : M (str * Stats Summary) :=
  do '(translated_content, translated_summary, comparison_result) <-
    (if (completeness_score comparison_result <? 8)%Z
        && negb (PyStr.eqb (missing_content comparison_result) NONE_MISSING)
     then
       do retranslated_content <-
         _retranslate_with_focus content (missing_content comparison_result) ;;
       match retranslated_content with
       | Some ((_ :: _) as retranslated) =>
           let translated_content := retranslated in
           do translated_summary <- call (generate_translated_summary translated_content)
                                         (EvTranslatedSummary translated_content) ;;
           do comparison_result <- call (compare_summaries original_summary translated_summary)
                                        (EvCompare original_summary translated_summary) ;;
           ret (translated_content, translated_summary, comparison_result)
       | _ => ret (translated_content, translated_summary, comparison_result)
       end
     else
       ret (translated_content, translated_summary, comparison_result)) ;;
  let stats := {|
    st_original_summary := original_summary;
    st_translated_summary := translated_summary;
    st_comparison_result := comparison_result;
    st_chunk_count := length chunks;
    st_completeness_score := completeness_score comparison_result
  |} in
  ret (translated_content, stats).

End Methods.

(** The blank-line-separated units of a text: its pieces between
    occurrences of an empty line. *)
Definition blank_line_units (text : str) : list str :=
  split text (NEWLINE ++ NEWLINE).

(** *** [translate_with_context] *)

Section WithContext.

Context {W Summary : Type} {C : Collaborators W Summary}.

(** [enhanced_chain.invoke({"content": content, "context": context})]: the
    chain [translate_with_context] builds from a template of its own, the
    model and the output parser. That template is not one of [prompt], so
    the invocation is left open: any computation over the same world. *)
Variable enhanced_chain_invoke : str -> str -> M W Summary str.

(** 'paragraph' *)
Definition PARAGRAPH_TYPE : str := lit "paragraph".

Definition translate_with_context (content context : str) : M W Summary str :=
  if nonempty context then
    try_except_Exception
      (enhanced_chain_invoke content context)
      (fun e => translate_chunk (mkTextChunk content PARAGRAPH_TYPE))
  else
    translate_chunk (mkTextChunk content PARAGRAPH_TYPE).

End WithContext.

(** *** What a run raises *)

Section Raised.

Context {Summary : Type}.

(** The exception a call ended with, if it raised. *)
Definition raised (ev : event Summary) : option exn :=
  match ev with
  | EvLLM _ (Raise e) => Some e
  | EvOriginalSummary _ (Raise e) => Some e
  | EvTranslatedSummary _ (Raise e) => Some e
  | EvCompare _ _ (Raise e) => Some e
  | EvChunk _ (Raise e) => Some e
  | _ => None
  end.

(** A call of the model, through either chain. *)
Definition is_model_call (ev : event Summary) : bool :=
  match ev with
  | EvLLM _ _ => true
  | _ => false
  end.

(** The run ended with the exception [e]: its last call raised [e], and
    if that call was a call of the model, [e] is not an [Exception]. *)
Definition raised_by_last_call (e : exn) (tr : list (event Summary)) : Prop :=
  exists ev,
    last tr = Some ev
    /\ raised ev = Some e
    /\ (is_model_call ev = true -> is_Exception e = false).

End Raised.

(** A text with no white space at either end: what [strip] leaves as it
    is. *)
Definition stripped (s : str) : Prop := strip s = s.

End SmartTranslator.

(** ** The configuration manager ([config_manager.py]) *)

Module ConfigManager.

(** A loaded [configparser.ConfigParser]: the options of each section and
    those of the [DEFAULT] section, which every section inherits. Option
    names are stored in lower case and values are the interpolated ones. *)
Record ConfigParser := mkConfigParser {
  _sections : gmap str (gmap str str);
  _defaults : gmap str str
}.

(** [self.config.has_section(section)]; the [DEFAULT] section does not
    count. *)
Definition has_section (config : ConfigParser) (section : str) : bool :=
  match _sections config !! section with
  | Some _ => true
  | None => false
  end.

(** [self.config.get(section, name, fallback=fallback)] for a section
    other than [DEFAULT]: the option of the section, else the one of
    [DEFAULT], else the fallback, which also covers a missing section. *)
Definition get (config : ConfigParser) (section name : str) (fallback : option str)
  : option str :=
  match _sections config !! section with
  | None => fallback
  | Some sectiondict =>
      match sectiondict !! name with
      | Some value => Some value
      | None =>
          match _defaults config !! name with
          | Some value => Some value
          | None => fallback
          end
      end
  end.

(** [os.getenv(key, default)] over [os.environ]. *)
Definition getenv (environ : gmap str str) (key : str) (default : option str) : option str :=
  match environ !! key with
  | Some value => Some value
  | None => default
  end.

(** [x == s] for an [Optional[str]] and a string. *)
Definition equals (x : option str) (s : str) : bool :=
  match x with
  | Some v => PyStr.eqb v s
  | None => false
  end.

(** The dictionary [get_openai_config] builds and returns. *)
Record OpenAIConfig := mkOpenAIConfig {
  cfg_api_key : option str;
  cfg_base_url : option str
}.

Definition set_api_key (config : OpenAIConfig) (v : option str) : OpenAIConfig :=
  mkOpenAIConfig v (cfg_base_url config).
Definition set_base_url (config : OpenAIConfig) (v : option str) : OpenAIConfig :=
  mkOpenAIConfig (cfg_api_key config) v.

Definition OPENAI : str := lit "openai".
Definition API_KEY : str := lit "api_key".
Definition BASE_URL : str := lit "base_url".
Definition PLACEHOLDER : str := lit "your_openai_api_key_here".
Definition DEFAULT_BASE_URL : str := lit "https://api.openai.com/v1".
Definition OPENAI_API_KEY : str := lit "OPENAI_API_KEY".
Definition OPENAI_BASE_URL : str := lit "OPENAI_BASE_URL".

(** [ConfigManager.get_openai_config], with [self.config] and [os.environ]
    as arguments. *)
Definition get_openai_config (self_config : ConfigParser) (environ : gmap str str)
    (api_key base_url : option str) : OpenAIConfig :=
  let config := mkOpenAIConfig api_key base_url in
  let config :=
    if negb (truthy api_key) && has_section self_config OPENAI then
      let config := set_api_key config (get self_config OPENAI API_KEY None) in
      if equals (cfg_api_key config) PLACEHOLDER
      then set_api_key config None
      else config
    else config in
  let config :=
    if negb (truthy base_url) && has_section self_config OPENAI then
      set_base_url config (get self_config OPENAI BASE_URL (Some DEFAULT_BASE_URL))
    else config in
  let config :=
    if negb (truthy (cfg_api_key config))
    then set_api_key config (getenv environ OPENAI_API_KEY None)
    else config in
  let config :=
    if negb (truthy (cfg_base_url config))
    then set_base_url config (getenv environ OPENAI_BASE_URL (Some DEFAULT_BASE_URL))
    else config in
  config.

(** A file with an [openai] section holding the given options and nothing
    else. *)
Definition config_with_openai (options : gmap str str) : ConfigParser :=
  mkConfigParser {[ OPENAI := options ]} ∅.

(** *** [get_qwen_config] *)

Definition QWEN : str := lit "qwen".
Definition QWEN_PLACEHOLDER : str := lit "your_dashscope_api_key_here".
Definition DASHSCOPE_API_KEY : str := lit "DASHSCOPE_API_KEY".

(** The dictionary [get_qwen_config] returns: its only key is ['api_key']. *)
Record QwenConfig := mkQwenConfig { qwen_api_key : option str }.

(** [ConfigManager.get_qwen_config], with [self.config] and [os.environ] as
    arguments. *)
Definition get_qwen_config (self_config : ConfigParser) (environ : gmap str str)
    (api_key : option str) : QwenConfig :=
  let config := mkQwenConfig api_key in
  let config :=
    if negb (truthy api_key) && has_section self_config QWEN then
      let config := mkQwenConfig (get self_config QWEN API_KEY None) in
      if equals (qwen_api_key config) QWEN_PLACEHOLDER
      then mkQwenConfig None
      else config
    else config in
  let config :=
    if negb (truthy (qwen_api_key config))
    then mkQwenConfig (getenv environ DASHSCOPE_API_KEY None)
    else config in
  config.

(** *** [get_default_config] *)

Definition DEFAULT_SECTION : str := lit "default".
Definition MODEL_NAME_KEY : str := lit "model_name".
Definition PROVIDER_KEY : str := lit "provider".
Definition TRANSLATOR_ID_KEY : str := lit "translator_id".
Definition MAX_TOKENS_KEY : str := lit "max_tokens".
Definition MODEL_NAME : str := lit "MODEL_NAME".
Definition MODEL_PROVIDER : str := lit "MODEL_PROVIDER".

(** The keys of [defaults], in the order the dictionary is written, which
    is the order [for key in defaults] visits them. *)
Definition default_keys : list str :=
  [MODEL_NAME_KEY; PROVIDER_KEY; TRANSLATOR_ID_KEY; MAX_TOKENS_KEY].

(** The dictionary [defaults] as it is written in the source. *)
Definition hard_coded_defaults : gmap str str :=
  <[MAX_TOKENS_KEY := lit "800"]>
    (<[TRANSLATOR_ID_KEY := lit "FILL_YOUR_GITHUB_ID_HERE"]>
       (<[PROVIDER_KEY := lit "auto"]>
          (<[MODEL_NAME_KEY := lit "gpt-3.5-turbo"]> ∅))).

(** [defaults[key] = value]; [value] is [None] only if [defaults[key]]
    raised a [KeyError], which the keys visited rule out. *)
Definition assign (defaults : gmap str str) (key : str) (value : option str) : gmap str str :=
  match value with
  | Some v => <[key := v]> defaults
  | None => defaults
  end.

(** [ConfigManager.get_default_config], with [self.config] and [os.environ]
    as arguments. *)
Definition get_default_config (self_config : ConfigParser) (environ : gmap str str)
  : gmap str str :=
  let defaults := hard_coded_defaults in
  let defaults :=
    if has_section self_config DEFAULT_SECTION then
      foldl (fun defaults key =>
               let value := get self_config DEFAULT_SECTION key (defaults !! key) in
               assign defaults key value)
            defaults default_keys
    else defaults in
  let defaults :=
    assign defaults MODEL_NAME_KEY (getenv environ MODEL_NAME (defaults !! MODEL_NAME_KEY)) in
  let defaults :=
    assign defaults PROVIDER_KEY (getenv environ MODEL_PROVIDER (defaults !! PROVIDER_KEY)) in
  defaults.

(** *** [validate_config] *)

Definition AUTO : str := lit "auto".
Definition KW_OPENAI_API_KEY : str := lit "openai_api_key".
Definition KW_OPENAI_BASE_URL : str := lit "openai_base_url".
Definition KW_QWEN_API_KEY : str := lit "qwen_api_key".

(** [kwargs.get(key)]: [None] for a key that is missing, and for one given
    as [None]. *)
Definition kwargs_get (kwargs : gmap str (option str)) (key : str) : option str :=
  match kwargs !! key with
  | Some value => value
  | None => None
  end.

Section Validate.

(** [str.lower], the lower-casing of CPython over all of Unicode, taken as
    it is. *)
Variable lower : str -> str.

(** [ConfigManager.validate_config], with [self.config] and [os.environ] as
    arguments. *)
Definition validate_config (self_config : ConfigParser) (environ : gmap str str)
    (provider : str) (kwargs : gmap str (option str)) : bool :=
  if PyStr.eqb (lower provider) OPENAI then
    let openai_config :=
      get_openai_config self_config environ
        (kwargs_get kwargs KW_OPENAI_API_KEY) (kwargs_get kwargs KW_OPENAI_BASE_URL) in
    truthy (cfg_api_key openai_config)
  else if PyStr.eqb (lower provider) QWEN then
    let qwen_config := get_qwen_config self_config environ (kwargs_get kwargs KW_QWEN_API_KEY) in
    truthy (qwen_api_key qwen_config)
  else if PyStr.eqb (lower provider) AUTO then
    let openai_valid :=
      truthy (cfg_api_key (get_openai_config self_config environ
                             (kwargs_get kwargs KW_OPENAI_API_KEY) None)) in
    let qwen_valid :=
      truthy (qwen_api_key (get_qwen_config self_config environ
                              (kwargs_get kwargs KW_QWEN_API_KEY))) in
    openai_valid || qwen_valid
  else
    false.

End Validate.

End ConfigManager.

(** ** Scripted collaborators, for concrete runs *)

Module Scenario.

Import SmartTranslator.

(** The world is the list of the replies the model is still to give; with
    none left the call fails. *)
Definition scripted_llm (p : prompt) (w : list (result str)) : result str * list (result str) :=
  match w with
  | r :: w' => (r, w')
  | [] => (Raise (PyException []), [])
  end.

(** A summary is the text itself, and the comparison finds the translation
    complete exactly when the two summaries are equal. *)
Definition verdict (original translated : str) : ComparisonResult :=
  if PyStr.eqb original translated
  then mkComparisonResult 10 NONE_MISSING []
  else mkComparisonResult 5 (lit "gap") [].

(** The chunker returns the given chunks whatever the document. *)
Definition scripted (chunks : list TextChunk) : Collaborators (list (result str)) str := {|
  llm := scripted_llm;
  generate_original_summary := fun text w => (Return text, w);
  generate_translated_summary := fun text w => (Return text, w);
  compare_summaries := fun o t w => (Return (verdict o t), w);
  chunk_text := fun _ w => (Return chunks, w)
|}.

Definition PARAGRAPH : str := lit "paragraph".

(** A network failure, and an interrupt. *)
Definition timeout : exn := PyException (lit "timeout").
Definition interrupt : exn := PyBaseException (lit "KeyboardInterrupt").

(** A document of one paragraph and translations of it. *)
Definition hello : str := lit "Hello".
Definition ni_hao : str := lit "Ni hao".
Definition ni_hao_again : str := lit "Ni hao!".
Definition one_paragraph : list TextChunk := [mkTextChunk hello PARAGRAPH].

(** The calls of the first pass over [hello] when the model answers
    [ni_hao]. *)
Definition first_calls : list (event str) :=
  [EvOriginalSummary hello (Return hello);
   EvChunk hello (Return one_paragraph);
   EvLLM (translation_template hello) (Return ni_hao);
   EvTranslatedSummary ni_hao (Return ni_hao);
   EvCompare hello ni_hao (Return (verdict hello ni_hao))].

(** A code block of three lines whose second line is a comment. *)
Definition three_lines : str :=
  lit "x = 1" ++ NEWLINE ++ lit "  # note" ++ NEWLINE ++ lit "y = 2".

(** Collaborators like [scripted], but for the summary generator, which
    fails on the translation [bad]. *)
Definition fragile (chunks : list TextChunk) (bad : str)
  : Collaborators (list (result str)) str := {|
  llm := scripted_llm;
  generate_original_summary := fun text w => (Return text, w);
  generate_translated_summary :=
    fun text w => if PyStr.eqb text bad then (Raise timeout, w) else (Return text, w);
  compare_summaries := fun o t w => (Return (verdict o t), w);
  chunk_text := fun _ w => (Return chunks, w)
|}.

(** Collaborators whose model is down: every call of it times out. *)
Definition model_down : Collaborators unit str := {|
  llm := fun _ w => (Raise timeout, w);
  generate_original_summary := fun text w => (Return text, w);
  generate_translated_summary := fun text w => (Return text, w);
  compare_summaries := fun o t w => (Return (verdict o t), w);
  chunk_text := fun _ w => (Return [], w)
|}.

(** A context chain that times out, without calling anything. *)
Definition failing_chain (content context : str)
  : M (list (result str)) str str :=
  fun w => (Raise timeout, w, []).

(** [str.lower] on the letters A to Z, other characters left as they are:
    what CPython does on ASCII text. *)
Definition ascii_lower (s : str) : str :=
  List.map (fun c => if (65 <=? c)%N && (c <=? 90)%N then (c + 32)%N else c) s.

End Scenario.

(** * Properties *)

Import SmartTranslator.
Local Open Scope py_scope.

(** ** Strings *)

Section StringFacts.

Lemma eqb_eq (a b : str) : PyStr.eqb a b = true <-> a = b.
Proof.
  revert b. induction a as [|x a IH]; intros [|y b]; simpl; try (split; congruence).
  rewrite andb_true_iff, N.eqb_eq, IH. split.
  - intros [-> ->]. reflexivity.
  - intros H. injection H. auto.
Qed.

Lemma eqb_neq (a b : str) : PyStr.eqb a b = false <-> a <> b.
Proof.
  rewrite <- eqb_eq. destruct (PyStr.eqb a b); split; congruence.
Qed.

Lemma eqb_refl (a : str) : PyStr.eqb a a = true.
Proof. apply eqb_eq. reflexivity. Qed.

(** Spaces in front of a text are what [lstrip] removes. *)
Lemma lstrip_spaces n (s : str) : lstrip (replicate n SPACE ++ s) = lstrip s.
Proof. induction n as [|n IH]; [reflexivity|exact IH]. Qed.

(** What is left of [lstrip] starts with a character that is not a space. *)
Lemma lstrip_head (s : str) c rest : lstrip s = c :: rest -> isspace c = false.
Proof.
  induction s as [|d s IH]; simpl; [discriminate|].
  destruct (isspace d) eqn:E; [exact IH|].
  intros H. injection H as -> _. exact E.
Qed.

(** A stripped text does not end with a space. *)
Lemma strip_last (s : str) :
  strip s = [] \/ exists p c, strip s = p ++ [c] /\ isspace c = false.
Proof.
  unfold strip, rstrip.
  destruct (lstrip (rev (lstrip s))) as [|c t] eqn:E; [left; reflexivity|].
  right. exists (rev t), c. split; [reflexivity|].
  eapply lstrip_head; eassumption.
Qed.

Lemma strip_last_not_newline (s : str) : List.last (strip s) 0%N <> 10%N.
Proof.
  destruct (strip_last s) as [->|(p & c & -> & Hc)]; [discriminate|].
  rewrite List.last_last. intros ->. vm_compute in Hc. discriminate.
Qed.

Lemma split_from_not_nil sep k (s : str) : split_from sep k s <> [].
Proof.
  revert k. induction s as [|c s IH]; intros k; cbn [split_from]; [discriminate|].
  destruct k; [|apply IH].
  destruct (startswith (c :: s) sep); [discriminate|].
  specialize (IH 0). destruct (split_from sep 0 s); [congruence|discriminate].
Qed.

Lemma join_cons_piece sep c (pieces : list str) :
  pieces <> [] -> join sep (cons_piece c pieces) = c :: join sep pieces.
Proof.
  destruct pieces as [|p [|q rest]]; [congruence| |]; reflexivity.
Qed.

Lemma join_cons sep (p : str) (pieces : list str) :
  pieces <> [] -> join sep (p :: pieces) = p ++ sep ++ join sep pieces.
Proof.
  destruct pieces; [congruence|reflexivity].
Qed.

(** Cutting a text into lines and joining the lines gives the text back. *)
Lemma join_split_lines (s : str) : join NEWLINE (split s NEWLINE) = s.
Proof.
  unfold split. induction s as [|c s IH]; [reflexivity|].
  cbn [split_from]. unfold NEWLINE at 2.
  change (startswith (c :: s) [10%N]) with ((c =? 10)%N && startswith s []).
  change (startswith s []) with true.
  change (length NEWLINE - 1) with 0.
  rewrite andb_true_r. destruct (c =? 10)%N eqn:E.
  - apply N.eqb_eq in E. subst c.
    rewrite join_cons by apply split_from_not_nil.
    fold NEWLINE. rewrite IH. reflexivity.
  - fold NEWLINE. rewrite join_cons_piece by apply split_from_not_nil.
    rewrite IH. reflexivity.
Qed.

Lemma cons_piece_app c (a b : list str) :
  a <> [] -> cons_piece c (a ++ b) = cons_piece c a ++ b.
Proof.
  destruct a; [congruence|reflexivity].
Qed.

Lemma split_from_cons sep c (s : str) :
  split_from sep 0 (c :: s)
  = if startswith (c :: s) sep
    then [] :: split_from sep (length sep - 1) s
    else cons_piece c (split_from sep 0 s).
Proof. reflexivity. Qed.

(** Splitting at empty lines goes through a separator that follows a text
    not ending in a newline: nothing of the text is taken into the
    separator. *)
Lemma split_blank_app (p rest : str) k :
  k <= length p ->
  List.last p 0%N <> 10%N ->
  split_from (NEWLINE ++ NEWLINE) k (p ++ (NEWLINE ++ NEWLINE) ++ rest)
  = split_from (NEWLINE ++ NEWLINE) k p ++ split_from (NEWLINE ++ NEWLINE) 0 rest.
Proof.
  revert k. induction p as [|c p IH]; intros k Hk Hlast.
  - simpl in Hk. replace k with 0 by lia. reflexivity.
  - assert (Hp : List.last p 0%N <> 10%N).
    { destruct p; [discriminate|]. exact Hlast. }
    destruct k as [|k].
    + destruct p as [|d p].
      * simpl in Hlast. apply N.eqb_neq in Hlast.
        cbn. rewrite Hlast. cbn. reflexivity.
      * change ((c :: d :: p) ++ (NEWLINE ++ NEWLINE) ++ rest)
          with (c :: (d :: p) ++ (NEWLINE ++ NEWLINE) ++ rest).
        rewrite (split_from_cons _ c ((d :: p) ++ _)), (split_from_cons _ c (d :: p)).
        replace (startswith (c :: (d :: p) ++ (NEWLINE ++ NEWLINE) ++ rest) (NEWLINE ++ NEWLINE))
          with (startswith (c :: d :: p) (NEWLINE ++ NEWLINE)) by reflexivity.
        destruct (startswith (c :: d :: p) (NEWLINE ++ NEWLINE)).
        -- rewrite IH; [reflexivity|simpl; lia|exact Hp].
        -- rewrite IH; [|simpl; lia|exact Hp].
           apply cons_piece_app, split_from_not_nil.
    + change ((c :: p) ++ (NEWLINE ++ NEWLINE) ++ rest)
        with (c :: p ++ (NEWLINE ++ NEWLINE) ++ rest).
      cbn [split_from]. apply IH; [simpl in Hk; lia|exact Hp].
Qed.

(** The units of texts joined by empty lines are the units of each text,
    one text after the other, when no text ends with a newline. *)
Lemma units_join (pieces : list str) :
  pieces <> [] ->
  Forall (fun p => List.last p 0%N <> 10%N) pieces ->
  blank_line_units (join (NEWLINE ++ NEWLINE) pieces)
  = concat (List.map blank_line_units pieces).
Proof.
  induction pieces as [|p [|q rest] IH]; intros Hne Hall.
  - congruence.
  - simpl. rewrite app_nil_r. reflexivity.
  - rewrite join_cons by discriminate.
    unfold blank_line_units, split in *.
    inversion Hall as [|? ? Hp Hrest]; subst.
    rewrite split_blank_app by (lia || exact Hp).
    rewrite IH by (discriminate || exact Hrest). reflexivity.
Qed.

End StringFacts.

(** ** Loops and handlers *)

Section RunFacts.

Context {W Summary : Type} {C : Collaborators W Summary}.

Local Abbreviation M := (M W Summary).

Lemma after_nil {A} (x : result A * W * list (event Summary)) : after [] x = x.
Proof. destruct x as [[r w] t]. reflexivity. Qed.

Lemma after_after {A} t1 t2 (x : result A * W * list (event Summary)) :
  after t1 (after t2 x) = after (t1 ++ t2) x.
Proof. destruct x as [[r w] t]. simpl. rewrite app_assoc. reflexivity. Qed.

Lemma after_trace {A} t1 (x : result A * W * list (event Summary)) :
  (after t1 x).2 = t1 ++ x.2.
Proof. destruct x as [[r w] t]. reflexivity. Qed.

Lemma for_append_cons {A B} (x : A) xs (body : A -> M B) acc w :
  for_append (x :: xs) body acc w
  = match body x w with
    | (Return y, w1, t1) => after t1 (for_append xs body (acc ++ [y]) w1)
    | (Raise e, w1, t1) => (Raise e, w1, t1)
    end.
Proof. reflexivity. Qed.

(** The list a loop starts from is the front of the list it returns. *)
Lemma for_append_acc {A B} (xs : list A) (body : A -> M B) acc w :
  for_append xs body acc w
  = match for_append xs body [] w with
    | (Return outs, w', t) => (Return (acc ++ outs), w', t)
    | (Raise e, w', t) => (Raise e, w', t)
    end.
Proof.
  revert acc w. induction xs as [|x xs IH]; intros acc w.
  - simpl. unfold ret. rewrite app_nil_r. reflexivity.
  - rewrite !for_append_cons. destruct (body x w) as [[[y|e] w1] t1]; [|reflexivity].
    rewrite (IH (acc ++ [y])), (IH ([] ++ [y])).
    destruct (for_append xs body [] w1) as [[[outs|e] w2] t2]; [|reflexivity].
    simpl. rewrite <- app_assoc. reflexivity.
Qed.

(** A loop over [xs ++ ys] is the loop over [xs] followed by the loop over
    [ys], which goes on from the world the first one left. *)
Lemma for_append_app {A B} (xs ys : list A) (body : A -> M B) acc w :
  for_append (xs ++ ys) body acc w
  = match for_append xs body acc w with
    | (Return outs, w1, t1) => after t1 (for_append ys body outs w1)
    | (Raise e, w1, t1) => (Raise e, w1, t1)
    end.
Proof.
  revert acc w. induction xs as [|x xs IH]; intros acc w.
  - simpl. unfold ret. rewrite after_nil. reflexivity.
  - rewrite <- app_comm_cons, !for_append_cons.
    destruct (body x w) as [[[y|e] w1] t1]; [|reflexivity].
    rewrite IH. destruct (for_append xs body (acc ++ [y]) w1) as [[[outs|e] w2] t2]; [|reflexivity].
    cbn [after]. rewrite after_after. reflexivity.
Qed.

(** A line that is not a comment is appended as it is, with no call. *)
Lemma translate_code_line_other (line : str) w :
  is_comment_line line = false -> translate_code_line line w = (Return line, w, []).
Proof. intros H. unfold translate_code_line. rewrite H. reflexivity. Qed.

(** A comment line whose call returns [text]. *)
Lemma translate_code_line_translated (line : str) w text w1 :
  is_comment_line line = true ->
  llm (translation_template (strip line)) w = (Return text, w1) ->
  translate_code_line line w
  = (Return (replicate (length line - length (lstrip line)) SPACE ++ parse text), w1,
     [EvLLM (translation_template (strip line)) (Return text)]).
Proof.
  intros H E. unfold translate_code_line, try_except, translation_chain_invoke, bind, call, ret.
  rewrite H, E. reflexivity.
Qed.

(** A comment line whose call raises, whatever it raises. *)
Lemma translate_code_line_failed (line : str) w e w1 :
  is_comment_line line = true ->
  llm (translation_template (strip line)) w = (Raise e, w1) ->
  translate_code_line line w
  = (Return line, w1, [EvLLM (translation_template (strip line)) (Raise e)]).
Proof.
  intros H E. unfold translate_code_line, try_except, translation_chain_invoke, bind, call, ret.
  rewrite H, E. reflexivity.
Qed.

(** A comment line indented with spaces only keeps its indentation when it
    is translated. *)
Lemma translate_code_line_space_indent n (body : str) w text w1 :
  lstrip body = body ->
  is_comment_line (replicate n SPACE ++ body) = true ->
  llm (translation_template (strip (replicate n SPACE ++ body))) w = (Return text, w1) ->
  translate_code_line (replicate n SPACE ++ body) w
  = (Return (replicate n SPACE ++ parse text), w1,
     [EvLLM (translation_template (strip (replicate n SPACE ++ body))) (Return text)]).
Proof.
  intros Hb Hc E. rewrite (translate_code_line_translated _ _ _ _ Hc E).
  rewrite lstrip_spaces, Hb, length_app, length_replicate.
  replace (n + length body - length body) with n by lia. reflexivity.
Qed.

(** The loop over the lines of a code block always returns; it leaves the
    lines that are not comments as they are, and sends to the model the
    comment lines, stripped, and nothing else. *)
Lemma code_lines_run (lines : list str) :
  forall acc w, exists outs w' t,
    for_append lines translate_code_line acc w = (Return (acc ++ outs), w', t)
    /\ Forall2 (fun line out => is_comment_line line = false -> out = line) lines outs
    /\ prompts_sent t
       = List.map (fun line => translation_template (strip line))
                  (List.filter is_comment_line lines).
Proof.
  induction lines as [|line lines IH]; intros acc w.
  - exists [], w, []. simpl. unfold ret. rewrite app_nil_r. repeat split. constructor.
  - rewrite for_append_cons.
    destruct (is_comment_line line) eqn:Hc.
    + destruct (llm (translation_template (strip line)) w) as [[text|e] w1] eqn:E.
      * rewrite (translate_code_line_translated _ _ _ _ Hc E).
        destruct (IH (acc ++ [replicate (length line - length (lstrip line)) SPACE ++ parse text]) w1)
          as (outs & w' & t & -> & Hall & Hsent).
        eexists (_ :: outs), w', _. rewrite <- app_assoc. split; [reflexivity|].
        split; [constructor; [congruence|exact Hall]|].
        simpl. rewrite Hc, Hsent. reflexivity.
      * rewrite (translate_code_line_failed _ _ _ _ Hc E).
        destruct (IH (acc ++ [line]) w1) as (outs & w' & t & -> & Hall & Hsent).
        eexists (_ :: outs), w', _. rewrite <- app_assoc. split; [reflexivity|].
        split; [constructor; [congruence|exact Hall]|].
        simpl. rewrite Hc, Hsent. reflexivity.
    + rewrite (translate_code_line_other _ _ Hc).
      destruct (IH (acc ++ [line]) w) as (outs & w' & t & -> & Hall & Hsent).
      eexists (_ :: outs), w', _. rewrite <- app_assoc. split; [reflexivity|].
      split; [constructor; [reflexivity|exact Hall]|].
      simpl. rewrite Hc, Hsent. reflexivity.
Qed.

(** With no comment line the loop returns the lines and calls nothing. *)
Lemma code_lines_no_comment (lines : list str) acc w :
  (forall line, In line lines -> is_comment_line line = false) ->
  for_append lines translate_code_line acc w = (Return (acc ++ lines), w, []).
Proof.
  revert acc. induction lines as [|line lines IH]; intros acc H.
  - simpl. unfold ret. rewrite app_nil_r. reflexivity.
  - rewrite for_append_cons, translate_code_line_other by (apply H; left; reflexivity).
    rewrite IH by (intros l Hl; apply H; right; exact Hl).
    rewrite <- app_assoc. reflexivity.
Qed.

(** Code-block translation never raises. *)
Lemma translate_code_block_returns (code_content : str) w :
  exists out w' t, _translate_code_block code_content w = (Return out, w', t).
Proof.
  unfold _translate_code_block, bind.
  destruct (code_lines_run (split code_content NEWLINE) [] w) as (outs & w' & t & -> & _).
  unfold ret. eauto.
Qed.

(** What [translate_chunk] lets through is not an [Exception]. *)
Lemma translate_chunk_raise (chunk : TextChunk) w e w' t :
  translate_chunk chunk w = (Raise e, w', t) -> is_Exception e = false.
Proof.
  unfold translate_chunk, try_except_Exception.
  match goal with |- context [match ?b w with _ => _ end] => destruct (b w) as [[[a|e0] w1] t1] end.
  - discriminate.
  - destruct (is_Exception e0) eqn:E.
    + unfold ret. discriminate.
    + intros H. injection H as <- _ _. exact E.
Qed.

Lemma translation_chain_invoke_calls (text : str) w :
  Forall (fun ev => is_translation_call ev = true) (translation_chain_invoke text w).2.
Proof.
  unfold translation_chain_invoke, bind, call, ret.
  destruct (llm (translation_template text) w) as [[a|e] w1]; simpl; repeat constructor.
Qed.

Lemma for_append_calls {A B} (P : event Summary -> Prop) (body : A -> M B) :
  (forall x w, Forall P (body x w).2) ->
  forall xs acc w, Forall P (for_append xs body acc w).2.
Proof.
  intros Hbody. induction xs as [|x xs IH]; intros acc w.
  - constructor.
  - rewrite for_append_cons. specialize (Hbody x w).
    destruct (body x w) as [[[y|e] w1] t1]; [|exact Hbody].
    specialize (IH (acc ++ [y]) w1).
    destruct (for_append xs body (acc ++ [y]) w1) as [[r w2] t2].
    simpl in *. apply Forall_app. split; assumption.
Qed.

Lemma translate_code_line_calls (line : str) w :
  Forall (fun ev => is_translation_call ev = true) (translate_code_line line w).2.
Proof.
  unfold translate_code_line. destruct (is_comment_line line); [|constructor].
  unfold try_except, translation_chain_invoke, bind, call, ret.
  destruct (llm (translation_template (strip line)) w) as [[a|e] w1]; simpl; repeat constructor.
Qed.

Lemma translate_chunk_calls (chunk : TextChunk) w :
  Forall (fun ev => is_translation_call ev = true) (translate_chunk chunk w).2.
Proof.
  unfold translate_chunk, try_except_Exception.
  destruct (PyStr.eqb (chunk_type chunk) CODE).
  - unfold _translate_code_block, bind.
    pose proof (for_append_calls _ _ translate_code_line_calls
                  (split (content chunk) NEWLINE) [] w) as H.
    destruct (for_append (split (content chunk) NEWLINE) translate_code_line [] w)
      as [[[outs|e] w1] t1]; simpl in *.
    + rewrite app_nil_r. exact H.
    + destruct (is_Exception e); simpl; [rewrite app_nil_r|]; exact H.
  - pose proof (translation_chain_invoke_calls (content chunk) w) as H.
    unfold bind.
    destruct (translation_chain_invoke (content chunk) w) as [[[a|e] w1] t1]; simpl in *.
    + rewrite app_nil_r. exact H.
    + destruct (is_Exception e); simpl; [rewrite app_nil_r|]; exact H.
Qed.

(** No call of the retranslation chain among calls of the translation
    chain. *)
Lemma translation_calls_no_retranslation (t : list (event Summary)) :
  Forall (fun ev => is_translation_call ev = true) t ->
  calls is_retranslation_call t = 0.
Proof.
  unfold calls. induction 1 as [|ev t Hev _ IH]; [reflexivity|].
  simpl. destruct ev as [[]| | | |]; try discriminate. exact IH.
Qed.

End RunFacts.

(** ** The orchestrator *)

Section Orchestrator.

Context {W Summary : Type} {C : Collaborators W Summary}.

Lemma incomplete_true (cr : ComparisonResult) :
  incomplete cr <->
  (completeness_score cr <? 8)%Z
    && negb (PyStr.eqb (missing_content cr) NONE_MISSING) = true.
Proof.
  unfold incomplete. rewrite andb_true_iff, negb_true_iff, Z.ltb_lt, eqb_neq. tauto.
Qed.

Lemma incomplete_false (cr : ComparisonResult) :
  ~ incomplete cr <->
  (completeness_score cr <? 8)%Z
    && negb (PyStr.eqb (missing_content cr) NONE_MISSING) = false.
Proof.
  rewrite incomplete_true. destruct (_ && _); split; congruence.
Qed.

Lemma calls_app (kind : event Summary -> bool) (a b : list (event Summary)) :
  calls kind (a ++ b) = calls kind a + calls kind b.
Proof. unfold calls. rewrite List.filter_app, length_app. reflexivity. Qed.

(** Up to the first comparison the retranslation chain is not called. *)
Lemma first_pass_no_retranslation content (w : W) os chunks merged ts cr w5 t5 :
  first_pass content w os chunks merged ts cr w5 t5 ->
  calls is_retranslation_call t5 = 0.
Proof.
  intros (w1 & w2 & tcs & w3 & t3 & w4 & _ & _ & E3 & _ & _ & _ & ->).
  rewrite !calls_app.
  pose proof (for_append_calls _ _ translate_chunk_calls chunks [] w2) as H.
  rewrite E3 in H. simpl in H.
  rewrite (translation_calls_no_retranslation _ H). reflexivity.
Qed.

(** [translate_content] is its first five calls followed by
    [second_pass]. *)
Lemma translate_content_split content :
  translate_content content
  = (do original_summary <- call (generate_original_summary content) (EvOriginalSummary content) ;;
     do chunks <- call (chunk_text content) (EvChunk content) ;;
     do translated_chunks <- for_append chunks translate_chunk [] ;;
     let translated_content := _merge_translated_chunks translated_chunks in
     do translated_summary <- call (generate_translated_summary translated_content)
                                   (EvTranslatedSummary translated_content) ;;
     do comparison_result <- call (compare_summaries original_summary translated_summary)
                                  (EvCompare original_summary translated_summary) ;;
     second_pass content original_summary chunks translated_content
                 translated_summary comparison_result).
Proof. reflexivity. Qed.

(** A run that makes a first pass goes on with [second_pass]. *)
Lemma first_pass_then content (w : W) os chunks merged ts cr w5 t5 :
  first_pass content w os chunks merged ts cr w5 t5 ->
  translate_content content w = after t5 (second_pass content os chunks merged ts cr w5).
Proof.
  intros (w1 & w2 & tcs & w3 & t3 & w4 & E1 & E2 & E3 & -> & E4 & E5 & ->).
  rewrite translate_content_split. unfold bind at 1, call at 1. rewrite E1. cbv beta iota.
  unfold bind at 1, call at 1. rewrite E2. cbv beta iota.
  unfold bind at 1. rewrite E3. cbv beta iota zeta.
  unfold bind at 1, call at 1. rewrite E4. cbv beta iota.
  unfold bind at 1, call at 1. rewrite E5. cbv beta iota.
  rewrite !after_after. f_equal. rewrite <- !app_assoc. reflexivity.
Qed.

(** A run that returns has made a first pass. *)
Lemma translate_content_returns content (w : W) x w' tr :
  translate_content content w = (Return x, w', tr) ->
  exists os chunks merged ts cr w5 t5,
    first_pass content w os chunks merged ts cr w5 t5
    /\ after t5 (second_pass content os chunks merged ts cr w5) = (Return x, w', tr).
Proof.
  intros H.
  destruct (generate_original_summary content w) as [[os|e] w1] eqn:E1;
    [destruct (chunk_text content w1) as [[chunks|e] w2] eqn:E2;
     [destruct (for_append chunks translate_chunk [] w2) as [[[tcs|e] w3] t3] eqn:E3;
      [destruct (generate_translated_summary (_merge_translated_chunks tcs) w3)
         as [[ts|e] w4] eqn:E4;
       [destruct (compare_summaries os ts w4) as [[cr|e] w5] eqn:E5|]|]|]|].
  1: { assert (Hfp : first_pass content w os chunks (_merge_translated_chunks tcs) ts cr w5
                       ([EvOriginalSummary content (Return os); EvChunk content (Return chunks)]
                          ++ t3
                          ++ [EvTranslatedSummary (_merge_translated_chunks tcs) (Return ts);
                              EvCompare os ts (Return cr)]))
         by (exists w1, w2, tcs, w3, t3, w4; repeat split; assumption).
       do 7 eexists. split; [exact Hfp|].
       rewrite <- (first_pass_then _ _ _ _ _ _ _ _ _ Hfp). exact H. }
  all: exfalso; rewrite translate_content_split in H; revert H;
    unfold bind at 1, call at 1; rewrite E1; cbv beta iota; try discriminate;
    unfold bind at 1, call at 1; rewrite E2; cbv beta iota; try discriminate;
    unfold bind at 1; rewrite E3; cbv beta iota zeta; try discriminate;
    unfold bind at 1, call at 1; rewrite E4; cbv beta iota; try discriminate;
    unfold bind at 1, call at 1; rewrite E5; cbv beta iota; discriminate.
Qed.

(** The stats built from the values at hand. *)
Local Abbreviation stats_of os ts cr chunks :=
  (mkStats os ts cr (length chunks) (completeness_score cr)) (only parsing).

(** The translation is found complete: nothing more is done. *)
Lemma second_pass_complete content os chunks merged ts cr (w5 : W) :
  ~ incomplete cr ->
  second_pass content os chunks merged ts cr w5
  = (Return (merged, stats_of os ts cr chunks), w5, []).
Proof.
  intros H. apply incomplete_false in H.
  unfold second_pass. rewrite H. reflexivity.
Qed.

(** The retranslation call raises. *)
Lemma second_pass_failed content os chunks merged ts cr (w5 : W) e w6 :
  incomplete cr ->
  llm (retranslation_template content (missing_content cr)) w5 = (Raise e, w6) ->
  second_pass content os chunks merged ts cr w5
  = (if is_Exception e then Return (merged, stats_of os ts cr chunks) else Raise e,
     w6, [EvLLM (retranslation_template content (missing_content cr)) (Raise e)]).
Proof.
  intros H E. apply incomplete_true in H.
  unfold second_pass. rewrite H.
  unfold _retranslate_with_focus, try_except_Exception, retranslation_chain_invoke, bind, call.
  rewrite E. destruct (is_Exception e); reflexivity.
Qed.

(** The retranslation call returns a text that is empty once stripped. *)
Lemma second_pass_empty content os chunks merged ts cr (w5 : W) text w6 :
  incomplete cr ->
  llm (retranslation_template content (missing_content cr)) w5 = (Return text, w6) ->
  parse text = [] ->
  second_pass content os chunks merged ts cr w5
  = (Return (merged, stats_of os ts cr chunks),
     w6, [EvLLM (retranslation_template content (missing_content cr)) (Return text)]).
Proof.
  intros H E Hp. apply incomplete_true in H.
  unfold second_pass. rewrite H.
  unfold _retranslate_with_focus, try_except_Exception, retranslation_chain_invoke, bind, call.
  rewrite E. cbn. rewrite Hp. reflexivity.
Qed.

(** The retranslation call returns a text: summary and comparison are made
    again, of that text. *)
Lemma second_pass_adopted content os chunks merged ts cr (w5 : W) text w6 :
  incomplete cr ->
  llm (retranslation_template content (missing_content cr)) w5 = (Return text, w6) ->
  parse text <> [] ->
  second_pass content os chunks merged ts cr w5
  = after [EvLLM (retranslation_template content (missing_content cr)) (Return text)]
      match generate_translated_summary (parse text) w6 with
      | (Raise e, w7) => (Raise e, w7, [EvTranslatedSummary (parse text) (Raise e)])
      | (Return ts', w7) =>
          after [EvTranslatedSummary (parse text) (Return ts')]
            match compare_summaries os ts' w7 with
            | (Raise e, w8) => (Raise e, w8, [EvCompare os ts' (Raise e)])
            | (Return cr', w8) =>
                (Return (parse text, stats_of os ts' cr' chunks), w8,
                 [EvCompare os ts' (Return cr')])
            end
      end.
Proof.
  intros H E Hp. apply incomplete_true in H.
  unfold second_pass. rewrite H.
  unfold _retranslate_with_focus, try_except_Exception, retranslation_chain_invoke, bind, call.
  rewrite E. cbn. destruct (parse text) as [|c r] eqn:Ep; [congruence|].
  destruct (generate_translated_summary (c :: r) w6) as [[ts'|e] w7]; [|reflexivity].
  cbn. destruct (compare_summaries os ts' w7) as [[cr'|e] w8]; reflexivity.
Qed.

Lemma calls_zero_in (kind : event Summary -> bool) t ev :
  calls kind t = 0 -> In ev t -> kind ev = false.
Proof.
  unfold calls. induction t as [|x t IH]; simpl; [tauto|].
  destruct (kind x) eqn:E; simpl; [discriminate|].
  intros H [->|Hin]; [exact E|exact (IH H Hin)].
Qed.

Lemma translation_calls_only (kind : event Summary -> bool) (t : list (event Summary)) :
  (forall p r, kind (EvLLM p r) = false) ->
  Forall (fun ev => is_translation_call ev = true) t ->
  calls kind t = 0.
Proof.
  intros Hk. unfold calls. induction 1 as [|ev t Hev _ IH]; [reflexivity|].
  simpl. destruct ev as [p r| | | |]; try discriminate. rewrite Hk. exact IH.
Qed.

(** The first pass makes one translated summary and one comparison. *)
Lemma first_pass_summary_calls content (w : W) os chunks merged ts cr w5 t5 :
  first_pass content w os chunks merged ts cr w5 t5 ->
  calls is_translated_summary_call t5 = 1 /\ calls is_compare_call t5 = 1.
Proof.
  intros (w1 & w2 & tcs & w3 & t3 & w4 & _ & _ & E3 & _ & _ & _ & ->).
  pose proof (for_append_calls _ _ translate_chunk_calls chunks [] w2) as H.
  rewrite E3 in H. simpl in H. rewrite !calls_app.
  rewrite !(translation_calls_only _ _ (fun _ _ => eq_refl) H). split; reflexivity.
Qed.

Lemma last_translated_summary_app (pre tail : list (event Summary)) :
  last_translated_summary (pre ++ tail)
  = match last_translated_summary tail with
    | Some x => Some x
    | None => last_translated_summary pre
    end.
Proof.
  unfold last_translated_summary. rewrite rev_app_distr.
  induction (rev tail) as [|ev t IH]; [reflexivity|].
  simpl. destruct ev as [| |? [?|?]| |]; auto.
Qed.

Lemma last_comparison_app (pre tail : list (event Summary)) :
  last_comparison (pre ++ tail)
  = match last_comparison tail with
    | Some x => Some x
    | None => last_comparison pre
    end.
Proof.
  unfold last_comparison. rewrite rev_app_distr.
  induction (rev tail) as [|ev t IH]; [reflexivity|].
  simpl. destruct ev as [| | |? ? [?|?]|]; auto.
Qed.

(** At the end of the first pass the most recent summary is that of the
    merged translation, and the most recent comparison the one just made. *)
Lemma first_pass_last content (w : W) os chunks merged ts cr w5 t5 :
  first_pass content w os chunks merged ts cr w5 t5 ->
  last_translated_summary t5 = Some (merged, ts)
  /\ last_comparison t5 = Some (os, ts, cr)
  /\ In (EvChunk content (Return chunks)) t5.
Proof.
  intros (w1 & w2 & tcs & w3 & t3 & w4 & _ & _ & _ & -> & _ & _ & ->).
  rewrite app_assoc, last_translated_summary_app, last_comparison_app.
  repeat split. right. left. reflexivity.
Qed.

(** C1. In a run of [translate_content] that gets to the first comparison,
    with result [cr], the retranslation chain is called exactly once when
    [completeness_score cr < 8] and [missing_content cr] is not the
    sentinel, and is not called at all otherwise; in particular it is not
    called when [missing_content cr] is the sentinel, whatever the score.
    The number counted is that of the calls of the whole run. *)
Theorem C1_retranslation_iff_incomplete content (w : W) os chunks merged ts cr w5 t5 :
  first_pass content w os chunks merged ts cr w5 t5 ->
  let n := calls is_retranslation_call (translate_content content w).2 in
  ((completeness_score cr < 8)%Z /\ missing_content cr <> NONE_MISSING <-> n = 1)
  /\ (~ ((completeness_score cr < 8)%Z /\ missing_content cr <> NONE_MISSING) <-> n = 0)
  /\ (missing_content cr = NONE_MISSING -> n = 0).
Proof.
  intros H. cbv zeta. fold (incomplete cr).
  rewrite (first_pass_then _ _ _ _ _ _ _ _ _ H), after_trace, calls_app,
    (first_pass_no_retranslation _ _ _ _ _ _ _ _ _ H).
  destruct ((completeness_score cr <? 8)%Z
            && negb (PyStr.eqb (missing_content cr) NONE_MISSING)) eqn:Hc.
  - apply incomplete_true in Hc.
    assert (Hn : calls is_retranslation_call
                   (second_pass content os chunks merged ts cr w5).2 = 1).
    { destruct (llm (retranslation_template content (missing_content cr)) w5)
        as [[text|e] w6] eqn:E.
      - destruct (parse text) as [|c r] eqn:Ep.
        + rewrite (second_pass_empty _ _ _ _ _ _ _ _ _ Hc E Ep). reflexivity.
        + rewrite (second_pass_adopted _ _ _ _ _ _ _ _ _ Hc E) by congruence.
          rewrite Ep.
          destruct (generate_translated_summary (c :: r) w6) as [[ts'|e] w7]; [|reflexivity].
          destruct (compare_summaries os ts' w7) as [[cr'|e] w8]; reflexivity.
      - rewrite (second_pass_failed _ _ _ _ _ _ _ _ _ Hc E). reflexivity. }
    rewrite Hn. simpl. split; [tauto|]. split; [split; [tauto|discriminate]|].
    intros Hm. destruct Hc as [_ Hc]. contradiction.
  - apply incomplete_false in Hc.
    rewrite (second_pass_complete _ _ _ _ _ _ _ Hc). simpl.
    split; [split; [tauto|discriminate]|]. split; [tauto|reflexivity].
Qed.

(** C6. When the branch is entered and the retranslation call raises an
    exception (an instance of [Exception]), [translate_content] returns the
    merged translation of the first pass with the summary and the comparison
    of the first pass in its stats; the failed call is the last call of the
    run, so that the run still counts one translated summary and one
    comparison. *)
Theorem C6_failed_retranslation_keeps_merged
    content (w : W) os chunks merged ts cr w5 t5 e w6 :
  first_pass content w os chunks merged ts cr w5 t5 ->
  (completeness_score cr < 8)%Z ->
  missing_content cr <> NONE_MISSING ->
  llm (retranslation_template content (missing_content cr)) w5 = (Raise e, w6) ->
  is_Exception e = true ->
  let tr := t5 ++ [EvLLM (retranslation_template content (missing_content cr)) (Raise e)] in
  translate_content content w
  = (Return (merged, mkStats os ts cr (length chunks) (completeness_score cr)), w6, tr)
  /\ calls is_translated_summary_call tr = 1
  /\ calls is_compare_call tr = 1.
Proof.
  intros H Hs Hm E He. cbv zeta.
  rewrite (first_pass_then _ _ _ _ _ _ _ _ _ H),
    (second_pass_failed _ _ _ _ _ _ _ _ _ (conj Hs Hm) E), He.
  destruct (first_pass_summary_calls _ _ _ _ _ _ _ _ _ H) as [H1 H2].
  rewrite !calls_app, H1, H2. repeat split.
Qed.

(** C7 (amended). When the branch is entered and the retranslation call
    returns a text that is not empty once stripped, [translate_content]
    returns that text instead of the merged translation; the translated
    summary and the comparison are made once more, of that text, and the run
    ends there, whatever the new comparison says: it counts one call of the
    retranslation chain, two translated summaries and two comparisons. (The
    two new calls are taken to return.) When the text is empty once
    stripped, the merged translation is returned and nothing is made
    again. *)
Theorem C7_retranslation_adopted_when_not_empty
    content (w : W) os chunks merged ts cr w5 t5 text w6 :
  first_pass content w os chunks merged ts cr w5 t5 ->
  (completeness_score cr < 8)%Z ->
  missing_content cr <> NONE_MISSING ->
  llm (retranslation_template content (missing_content cr)) w5 = (Return text, w6) ->
  let retranslation := EvLLM (retranslation_template content (missing_content cr)) (Return text) in
  (parse text <> [] ->
   forall ts' w7 cr' w8,
     generate_translated_summary (parse text) w6 = (Return ts', w7) ->
     compare_summaries os ts' w7 = (Return cr', w8) ->
     let tr := t5 ++ [retranslation;
                      EvTranslatedSummary (parse text) (Return ts');
                      EvCompare os ts' (Return cr')] in
     translate_content content w
     = (Return (parse text, mkStats os ts' cr' (length chunks) (completeness_score cr')), w8, tr)
     /\ calls is_retranslation_call tr = 1
     /\ calls is_translated_summary_call tr = 2
     /\ calls is_compare_call tr = 2)
  /\ (parse text = [] ->
      translate_content content w
      = (Return (merged, mkStats os ts cr (length chunks) (completeness_score cr)), w6,
         t5 ++ [retranslation])).
Proof.
  intros H Hs Hm E. cbv zeta. split.
  - intros Hp ts' w7 cr' w8 E7 E8.
    rewrite (first_pass_then _ _ _ _ _ _ _ _ _ H),
      (second_pass_adopted _ _ _ _ _ _ _ _ _ (conj Hs Hm) E Hp), E7, E8.
    destruct (first_pass_summary_calls _ _ _ _ _ _ _ _ _ H) as [H1 H2].
    rewrite !calls_app, H1, H2, (first_pass_no_retranslation _ _ _ _ _ _ _ _ _ H).
    repeat split.
  - intros Hp.
    rewrite (first_pass_then _ _ _ _ _ _ _ _ _ H),
      (second_pass_empty _ _ _ _ _ _ _ _ _ (conj Hs Hm) E Hp).
    reflexivity.
Qed.

(** C8. The stats of a run that returns are consistent: the score is the one
    of the comparison result in them; the chunk count is the length of the
    list the chunker returned; the translated summary is the most recent one
    of the run and was made from the very text that is returned; the
    comparison result is the most recent one and compares the original
    summary with that translated summary. When the retranslation chain
    returned a text that is not empty once stripped, the text returned is
    that one, so the summary and the comparison in the stats are the ones
    made after the retranslation. *)
Theorem C8_stats_consistent content (w : W) out stats w' tr :
  translate_content content w = (Return (out, stats), w', tr) ->
  st_completeness_score stats = completeness_score (st_comparison_result stats)
  /\ (exists chunks,
        In (EvChunk content (Return chunks)) tr /\ st_chunk_count stats = length chunks)
  /\ last_translated_summary tr = Some (out, st_translated_summary stats)
  /\ last_comparison tr
     = Some (st_original_summary stats, st_translated_summary stats, st_comparison_result stats)
  /\ (forall o m text,
        In (EvLLM (retranslation_template o m) (Return text)) tr ->
        parse text <> [] ->
        out = parse text).
Proof.
  intros H.
  destruct (translate_content_returns _ _ _ _ _ H)
    as (os & chunks & merged & ts & cr & w5 & t5 & Hfp & Hrun).
  destruct (first_pass_last _ _ _ _ _ _ _ _ _ Hfp) as (Hls & Hlc & Hch).
  pose proof (first_pass_no_retranslation _ _ _ _ _ _ _ _ _ Hfp) as Hno.
  assert (Hold : forall o m text, ~ In (EvLLM (retranslation_template o m) (Return text)) t5).
  { intros o m text Hin. apply (calls_zero_in _ _ _ Hno) in Hin. discriminate. }
  destruct ((completeness_score cr <? 8)%Z
            && negb (PyStr.eqb (missing_content cr) NONE_MISSING)) eqn:Hc.
  - apply incomplete_true in Hc.
    destruct (llm (retranslation_template content (missing_content cr)) w5)
      as [[text|e] w6] eqn:E.
    + destruct (parse text) as [|c r] eqn:Ep.
      * rewrite (second_pass_empty _ _ _ _ _ _ _ _ _ Hc E Ep) in Hrun.
        injection Hrun as <- <- <- <-.
        rewrite last_translated_summary_app, last_comparison_app.
        repeat split; eauto using in_or_app.
        intros o m text' Hin Hp. apply in_app_or in Hin as [Hin|[Hin|[]]].
        -- destruct (Hold _ _ _ Hin).
        -- injection Hin as _ _ <-. congruence.
      * rewrite (second_pass_adopted _ _ _ _ _ _ _ _ _ Hc E) in Hrun by congruence.
        rewrite Ep in Hrun.
        destruct (generate_translated_summary (c :: r) w6) as [[ts'|e] w7]; [|discriminate].
        destruct (compare_summaries os ts' w7) as [[cr'|e] w8]; [|discriminate].
        injection Hrun as <- <- <- <-.
        rewrite last_translated_summary_app, last_comparison_app.
        repeat split; eauto using in_or_app.
        intros o m text' Hin Hp. apply in_app_or in Hin as [Hin|[Hin|[Hin|[Hin|[]]]]];
          try discriminate.
        -- destruct (Hold _ _ _ Hin).
        -- injection Hin as _ _ <-. congruence.
    + rewrite (second_pass_failed _ _ _ _ _ _ _ _ _ Hc E) in Hrun.
      destruct (is_Exception e); [|discriminate].
      injection Hrun as <- <- <- <-.
      rewrite last_translated_summary_app, last_comparison_app.
      repeat split; eauto using in_or_app.
      intros o m text' Hin Hp. apply in_app_or in Hin as [Hin|[Hin|[]]].
      * destruct (Hold _ _ _ Hin).
      * discriminate.
  - apply incomplete_false in Hc.
    rewrite (second_pass_complete _ _ _ _ _ _ _ Hc) in Hrun.
    injection Hrun as <- <- <- <-. rewrite app_nil_r.
    repeat split; eauto.
    intros o m text' Hin Hp. destruct (Hold _ _ _ Hin).
Qed.

End Orchestrator.

(** ** Chunks and code blocks *)

Section Chunks.

Context {W Summary : Type} {C : Collaborators W Summary}.

(** C4. A code block none of whose lines is a comment line comes back from
    [_translate_code_block] as it was, character for character, the last
    newline included, and the model is not called. *)
Theorem C4_code_without_comments_unchanged (code_content : str) (w : W) :
  (forall line, In line (split code_content NEWLINE) -> is_comment_line line = false) ->
  _translate_code_block code_content w = (Return code_content, w, []).
Proof.
  intros H. unfold _translate_code_block, bind.
  rewrite (code_lines_no_comment _ [] w H). simpl. unfold ret.
  rewrite join_split_lines. reflexivity.
Qed.

(** C9. In [_translate_code_block], when the call for a comment line raises,
    whatever it raises, the line is appended as it is and the loop goes on
    with the lines after it, from the world the failed call left: the block
    is returned, with the line between the translations of the lines before
    it and of the lines after it. *)
Theorem C9_failed_comment_line_kept
    (code_content : str) (w : W) pre line post outs w1 t1 e w2 :
  split code_content NEWLINE = pre ++ line :: post ->
  is_comment_line line = true ->
  for_append pre translate_code_line [] w = (Return outs, w1, t1) ->
  llm (translation_template (strip line)) w1 = (Raise e, w2) ->
  exists outs' w3 t3,
    for_append post translate_code_line [] w2 = (Return outs', w3, t3)
    /\ length outs = length pre
    /\ length outs' = length post
    /\ _translate_code_block code_content w
       = (Return (join NEWLINE (outs ++ line :: outs')), w3,
          t1 ++ EvLLM (translation_template (strip line)) (Raise e) :: t3).
Proof.
  intros Hsplit Hc Epre E.
  destruct (code_lines_run post [] w2) as (outs' & w3 & t3 & Epost & Hpost & _).
  destruct (code_lines_run pre [] w) as (outs0 & w1' & t1' & Epre' & Hpre & _).
  rewrite Epre in Epre'. injection Epre' as -> <- <-.
  exists outs', w3, t3. simpl in Epost.
  split; [exact Epost|].
  split; [symmetry; exact (Forall2_length _ _ _ Hpre)|].
  split; [symmetry; exact (Forall2_length _ _ _ Hpost)|].
  unfold _translate_code_block, bind. rewrite Hsplit, for_append_app, Epre.
  rewrite for_append_cons, (translate_code_line_failed _ _ _ _ Hc E).
  rewrite (for_append_acc post), Epost. simpl.
  unfold ret. simpl. rewrite !app_nil_r, <- !app_assoc. reflexivity.
Qed.

(** C5 (amended). For a chunk that is not a code chunk, when the model call
    raises an exception (an instance of [Exception]), [translate_chunk]
    returns the failure marker followed by the content of the chunk, and
    the loop of [translate_content] appends it and goes on with the chunks
    after it. For any chunk, code or not, [translate_chunk] raises no
    [Exception]. For a code chunk [translate_chunk] is
    [_translate_code_block], where a failed call leaves its line as it is
    and no marker is made. *)
Theorem C5_failed_chunk_marked_and_loop_goes_on
    (pre post : list TextChunk) (chunk : TextChunk) (w : W) outs w1 t1 e w2 :
  chunk_type chunk <> CODE ->
  for_append pre translate_chunk [] w = (Return outs, w1, t1) ->
  llm (translation_template (content chunk)) w1 = (Raise e, w2) ->
  is_Exception e = true ->
  let failed := EvLLM (translation_template (content chunk)) (Raise e) in
  translate_chunk chunk w1 = (Return (FAILED ++ content chunk), w2, [failed])
  /\ for_append (pre ++ chunk :: post) translate_chunk [] w
     = after (t1 ++ [failed])
         (for_append post translate_chunk (outs ++ [FAILED ++ content chunk]) w2)
  /\ (forall c w0 e0 w0' t0,
        translate_chunk c w0 = (Raise e0, w0', t0) -> is_Exception e0 = false)
  /\ (forall c w0,
        chunk_type c = CODE -> translate_chunk c w0 = _translate_code_block (content c) w0).
Proof.
  intros Ht Epre E He. cbv zeta.
  assert (Hchunk : translate_chunk chunk w1
                   = (Return (FAILED ++ content chunk), w2,
                      [EvLLM (translation_template (content chunk)) (Raise e)])).
  { unfold translate_chunk, try_except_Exception.
    apply eqb_neq in Ht. rewrite Ht.
    unfold translation_chain_invoke, bind, call. rewrite E, He. reflexivity. }
  split; [exact Hchunk|]. split.
  - rewrite for_append_app, Epre. cbv beta iota.
    rewrite for_append_cons, Hchunk. cbv beta iota.
    rewrite after_after. reflexivity.
  - split; [intros c w0 e0 w0' t0; apply translate_chunk_raise|].
    intros c w0 Hc. unfold translate_chunk, try_except_Exception.
    rewrite Hc, eqb_refl.
    destruct (translate_code_block_returns (content c) w0) as (out & w' & t & ->).
    reflexivity.
Qed.

End Chunks.

(** C2 (amended). When at least one chunk is not blank, the blank-line
    separated units of the merged text are the units of the chunks that are
    not blank, each stripped, in the order of the chunks and with nothing
    else in between; chunks that are empty or made of spaces only are left
    out. So when, besides, no stripped chunk has an empty line inside, the
    merged text has exactly one unit for each chunk that is not blank: the
    stripped chunk. *)
Theorem C2_merge_units_of_nonblank_chunks (translated_chunks : list str) :
  let kept := List.filter (fun chunk => nonempty (strip chunk)) translated_chunks in
  kept <> [] ->
  blank_line_units (_merge_translated_chunks translated_chunks)
  = concat (List.map (fun chunk => blank_line_units (strip chunk)) kept)
  /\ ((forall chunk, In chunk kept -> blank_line_units (strip chunk) = [strip chunk]) ->
      blank_line_units (_merge_translated_chunks translated_chunks) = List.map strip kept).
Proof.
  intros kept Hkept.
  assert (Hunits : blank_line_units (_merge_translated_chunks translated_chunks)
                   = concat (List.map (fun chunk => blank_line_units (strip chunk)) kept)).
  { unfold _merge_translated_chunks. fold kept. rewrite units_join.
    - rewrite List.map_map. reflexivity.
    - destruct kept; [congruence|discriminate].
    - apply Forall_forall. intros p Hp. apply list_elem_of_In, List.in_map_iff in Hp.
      destruct Hp as (chunk & <- & _). apply strip_last_not_newline. }
  split; [exact Hunits|].
  intros Hone. rewrite Hunits. clear Hunits Hkept.
  induction kept as [|chunk kept IH]; [reflexivity|].
  simpl. rewrite Hone by (left; reflexivity).
  rewrite IH by (intros c Hc; apply Hone; right; exact Hc). reflexivity.
Qed.

(** ** The configuration manager *)

Section Config.

Import ConfigManager.

Lemma get_found (config : ConfigParser) section name v fallback :
  get config section name None = Some v -> get config section name fallback = Some v.
Proof.
  unfold get. destruct (_sections config !! section) as [sec|]; [|discriminate].
  destruct (sec !! name); [tauto|]. destruct (_defaults config !! name); [tauto|discriminate].
Qed.

Lemma get_some_section (config : ConfigParser) section name v :
  get config section name None = Some v -> has_section config section = true.
Proof.
  unfold has_section, get. destruct (_sections config !! section); [reflexivity|discriminate].
Qed.

Lemma truthy_some (x : option str) : truthy x = true -> exists v, x = Some v /\ v <> [].
Proof.
  destruct x as [[|c v]|]; try discriminate. intros _. eexists. split; [reflexivity|discriminate].
Qed.

Lemma equals_false (x : option str) s : x <> Some s -> equals x s = false.
Proof.
  destruct x as [v|]; [|reflexivity]. simpl. intros H. apply eqb_neq. congruence.
Qed.

(** The key [get_openai_config] returns, in one expression. *)
Lemma api_key_resolved (self_config : ConfigParser) (environ : gmap str str) api_key base_url :
  cfg_api_key (get_openai_config self_config environ api_key base_url)
  = let key :=
      if negb (truthy api_key) && has_section self_config OPENAI
      then if equals (get self_config OPENAI API_KEY None) PLACEHOLDER
           then None
           else get self_config OPENAI API_KEY None
      else api_key in
    if negb (truthy key) then getenv environ OPENAI_API_KEY None else key.
Proof.
  unfold get_openai_config.
  destruct (negb (truthy api_key) && has_section self_config OPENAI);
    cbn [set_api_key cfg_api_key cfg_base_url];
    [destruct (equals (get self_config OPENAI API_KEY None) PLACEHOLDER)|];
    destruct (negb (truthy base_url) && has_section self_config OPENAI);
    cbn [set_api_key set_base_url cfg_api_key cfg_base_url];
    match goal with
    | |- context [if negb (truthy ?x) then set_api_key _ _ else _] => destruct (negb (truthy x))
    end;
    cbn [set_api_key set_base_url cfg_api_key cfg_base_url];
    match goal with
    | |- context [if negb (truthy ?x) then set_base_url _ _ else _] => destruct (negb (truthy x))
    end;
    reflexivity.
Qed.

(** The URL [get_openai_config] returns, in one expression. *)
Lemma base_url_resolved (self_config : ConfigParser) (environ : gmap str str) api_key base_url :
  cfg_base_url (get_openai_config self_config environ api_key base_url)
  = let url :=
      if negb (truthy base_url) && has_section self_config OPENAI
      then get self_config OPENAI BASE_URL (Some DEFAULT_BASE_URL)
      else base_url in
    if negb (truthy url) then getenv environ OPENAI_BASE_URL (Some DEFAULT_BASE_URL) else url.
Proof.
  unfold get_openai_config.
  destruct (negb (truthy api_key) && has_section self_config OPENAI);
    cbn [set_api_key cfg_api_key cfg_base_url];
    [destruct (equals (get self_config OPENAI API_KEY None) PLACEHOLDER)|];
    destruct (negb (truthy base_url) && has_section self_config OPENAI);
    cbn [set_api_key set_base_url cfg_api_key cfg_base_url];
    match goal with
    | |- context [if negb (truthy ?x) then set_api_key _ _ else _] => destruct (negb (truthy x))
    end;
    cbn [set_api_key set_base_url cfg_api_key cfg_base_url];
    match goal with
    | |- context [if negb (truthy ?x) then set_base_url _ _ else _] => destruct (negb (truthy x))
    end;
    reflexivity.
Qed.

(** C10 (amended). The key: an argument that is not empty wins; otherwise
    the [api_key] of the [openai] section of the file, when there is one
    and it is neither empty nor the placeholder; otherwise the environment
    variable [OPENAI_API_KEY] ([None] when it is not set). The URL: an
    argument that is not empty wins; otherwise the [base_url] of the
    [openai] section of the file, when there is one and it is not empty;
    otherwise, when the file has no [openai] section or its [base_url] is
    empty, the environment variable [OPENAI_BASE_URL], and the default URL
    when it is not set. *)
Theorem C10_openai_config_precedence
    (self_config : ConfigParser) (environ : gmap str str) (api_key base_url : option str) :
  let config := get_openai_config self_config environ api_key base_url in
  let file_api_key := get self_config OPENAI API_KEY None in
  let file_base_url := get self_config OPENAI BASE_URL None in
  (truthy api_key = true -> cfg_api_key config = api_key)
  /\ (truthy api_key = false -> truthy file_api_key = true ->
      file_api_key <> Some PLACEHOLDER ->
      cfg_api_key config = file_api_key)
  /\ (truthy api_key = false ->
      truthy file_api_key = false \/ file_api_key = Some PLACEHOLDER ->
      cfg_api_key config = environ !! OPENAI_API_KEY)
  /\ (truthy base_url = true -> cfg_base_url config = base_url)
  /\ (truthy base_url = false -> truthy file_base_url = true ->
      cfg_base_url config = file_base_url)
  /\ (truthy base_url = false ->
      has_section self_config OPENAI = false \/ file_base_url = Some [] ->
      cfg_base_url config = Some (default DEFAULT_BASE_URL (environ !! OPENAI_BASE_URL))).
Proof.
  cbv zeta. rewrite api_key_resolved, base_url_resolved.
  repeat apply conj.
  - intros Ha. rewrite Ha. cbv zeta. cbn [negb andb]. rewrite Ha. reflexivity.
  - intros Ha Hf Hp. rewrite Ha. cbn [negb andb].
    destruct (truthy_some _ Hf) as (v & Ev & Hv).
    rewrite (get_some_section _ _ _ _ Ev), (equals_false _ _ Hp). cbv zeta.
    rewrite Hf. reflexivity.
  - intros Ha Hf. rewrite Ha. cbn [negb andb]. unfold getenv.
    destruct (has_section self_config OPENAI).
    + destruct Hf as [Hf|Hf].
      * destruct (equals _ PLACEHOLDER); cbv zeta; [|rewrite Hf];
          destruct (environ !! OPENAI_API_KEY); reflexivity.
      * rewrite Hf. destruct (environ !! OPENAI_API_KEY); reflexivity.
    + cbv zeta. rewrite Ha. destruct (environ !! OPENAI_API_KEY); reflexivity.
  - intros Hb. rewrite Hb. cbv zeta. cbn [negb andb]. rewrite Hb. reflexivity.
  - intros Hb Hf. rewrite Hb. cbn [negb andb].
    destruct (truthy_some _ Hf) as (v & Ev & Hv).
    rewrite (get_some_section _ _ _ _ Ev), (get_found _ _ _ _ _ Ev). cbv zeta.
    rewrite Ev in *. rewrite Hf. reflexivity.
  - intros Hb Hf. rewrite Hb. cbn [negb andb]. unfold getenv.
    destruct Hf as [Hf|Hf].
    + rewrite Hf. cbv zeta. rewrite Hb. destruct (environ !! OPENAI_BASE_URL); reflexivity.
    + rewrite (get_some_section _ _ _ _ Hf), (get_found _ _ _ _ _ Hf).
      destruct (environ !! OPENAI_BASE_URL); reflexivity.
Qed.

End Config.

(** ** Concrete runs *)

Section Runs.

Import Scenario ConfigManager.

(** Shows a first pass of a scripted run by running it. *)
Ltac first_pass_by_running :=
  unfold first_pass; do 6 eexists; repeat split; reflexivity.

(** C1, on a run: the comparison gives 5 and a gap, and the retranslation
    chain is called once. *)
Lemma C1_witness :
  first_pass (C := scripted one_paragraph) hello [Return ni_hao; Return ni_hao_again]
    hello one_paragraph ni_hao ni_hao (verdict hello ni_hao) [Return ni_hao_again] first_calls
  /\ ((completeness_score (verdict hello ni_hao) < 8)%Z
      /\ missing_content (verdict hello ni_hao) <> NONE_MISSING
      <-> calls is_retranslation_call
            (translate_content (C := scripted one_paragraph) hello
               [Return ni_hao; Return ni_hao_again]).2 = 1).
Proof.
  assert (H : first_pass (C := scripted one_paragraph) hello [Return ni_hao; Return ni_hao_again]
                hello one_paragraph ni_hao ni_hao (verdict hello ni_hao)
                [Return ni_hao_again] first_calls) by first_pass_by_running.
  split; [exact H|].
  exact (proj1 (C1_retranslation_iff_incomplete _ _ _ _ _ _ _ _ _ H)).
Defined.

(** C6, on a run: the retranslation call times out and the merged
    translation is returned. *)
Lemma C6_witness :
  translate_content (C := scripted one_paragraph) hello [Return ni_hao; Raise timeout]
  = (Return (ni_hao, mkStats hello ni_hao (verdict hello ni_hao) 1 5), [],
     first_calls ++ [EvLLM (retranslation_template hello (lit "gap")) (Raise timeout)]).
Proof.
  refine (proj1 (C6_failed_retranslation_keeps_merged (C := scripted one_paragraph)
                   hello [Return ni_hao; Raise timeout]
                   hello one_paragraph ni_hao ni_hao (verdict hello ni_hao)
                   [Raise timeout] first_calls timeout [] _ _ _ _ _)).
  - first_pass_by_running.
  - reflexivity.
  - vm_compute. discriminate.
  - reflexivity.
  - reflexivity.
Defined.

(** C7, on a run: the retranslation is returned, stripped, and although the
    second comparison still finds a gap the run ends there. *)
Lemma C7_witness :
  translate_content (C := scripted one_paragraph) hello
    [Return ni_hao; Return (lit " Ni hao! ")]
  = (Return (ni_hao_again, mkStats hello ni_hao_again (verdict hello ni_hao_again) 1 5), [],
     first_calls
       ++ [EvLLM (retranslation_template hello (lit "gap")) (Return (lit " Ni hao! "));
           EvTranslatedSummary ni_hao_again (Return ni_hao_again);
           EvCompare hello ni_hao_again (Return (verdict hello ni_hao_again))]).
Proof.
  refine (proj1 (proj1 (C7_retranslation_adopted_when_not_empty (C := scripted one_paragraph)
                   hello [Return ni_hao; Return (lit " Ni hao! ")]
                   hello one_paragraph ni_hao ni_hao (verdict hello ni_hao)
                   [Return (lit " Ni hao! ")] first_calls (lit " Ni hao! ") [] _ _ _ _)
                   _ ni_hao_again [] (verdict hello ni_hao_again) [] _ _)).
  - first_pass_by_running.
  - reflexivity.
  - vm_compute. discriminate.
  - reflexivity.
  - vm_compute. discriminate.
  - reflexivity.
  - reflexivity.
Defined.

(** C7 as stated fails: the retranslation call returns, with a text made of
    spaces, and the run returns the merged translation, not that text, and
    makes no second summary or comparison. *)
Lemma C7_blank_retranslation_not_adopted :
  llm (Collaborators := scripted one_paragraph)
      (retranslation_template hello (lit "gap")) [Return (lit "  ")]
  = (Return (lit "  "), [])
  /\ translate_content (C := scripted one_paragraph) hello [Return ni_hao; Return (lit "  ")]
     = (Return (ni_hao, mkStats hello ni_hao (verdict hello ni_hao) 1 5), [],
        first_calls ++ [EvLLM (retranslation_template hello (lit "gap")) (Return (lit "  "))])
  /\ ni_hao <> parse (lit "  ").
Proof.
  split; [reflexivity|]. split; [reflexivity|]. vm_compute. discriminate.
Qed.

(** C8, on the run that adopts a retranslation: the most recent summary is
    that of the text returned. *)
Lemma C8_witness :
  last_translated_summary
    (first_calls
       ++ [EvLLM (retranslation_template hello (lit "gap")) (Return (lit " Ni hao! "));
           EvTranslatedSummary ni_hao_again (Return ni_hao_again);
           EvCompare hello ni_hao_again (Return (verdict hello ni_hao_again))])
  = Some (ni_hao_again, ni_hao_again).
Proof.
  refine (proj1 (proj2 (proj2 (C8_stats_consistent (C := scripted one_paragraph)
            hello [Return ni_hao; Return (lit " Ni hao! ")]
            ni_hao_again (mkStats hello ni_hao_again (verdict hello ni_hao_again) 1 5) [] _ _)))).
  reflexivity.
Defined.

(** C3 fails on a comment line indented with a tab: the line sent to the
    model is the comment, stripped, and the translation comes back behind
    one space, not behind the tab. *)
Theorem C3_tab_indentation_becomes_space :
  translate_chunk (C := scripted []) (mkTextChunk (TAB :: lit "// init") CODE)
    [Return (lit "// zh")]
  = (Return (SPACE :: lit "// zh"), [],
     [EvLLM (translation_template (lit "// init")) (Return (lit "// zh"))])
  /\ SPACE :: lit "// zh" <> TAB :: lit "// zh".
Proof.
  split; [reflexivity|]. vm_compute. discriminate.
Qed.

(** C4, on a block of two lines that ends with a newline. *)
Lemma C4_witness :
  _translate_code_block (C := scripted [])
    (lit "x = 1" ++ NEWLINE ++ lit "y = 2" ++ NEWLINE) [Raise timeout]
  = (Return (lit "x = 1" ++ NEWLINE ++ lit "y = 2" ++ NEWLINE), [Raise timeout], []).
Proof.
  apply (C4_code_without_comments_unchanged (C := scripted [])).
  vm_compute. intros line [<-|[<-|[<-|[]]]]; reflexivity.
Defined.

(** C9, on a block whose comment line meets an interrupt: the line stays,
    the lines around it too, and nothing is raised. *)
Lemma C9_witness :
  exists outs' w3 t3,
    for_append [lit "y = 2"] (translate_code_line (C := scripted [])) [] []
    = (Return outs', w3, t3)
    /\ length [lit "x = 1"] = length [lit "x = 1"]
    /\ length outs' = length [lit "y = 2"]
    /\ _translate_code_block (C := scripted []) three_lines [Raise interrupt]
       = (Return (join NEWLINE ([lit "x = 1"] ++ lit "  # note" :: outs')), w3,
          [] ++ EvLLM (translation_template (strip (lit "  # note"))) (Raise interrupt) :: t3).
Proof.
  apply (C9_failed_comment_line_kept (C := scripted []) three_lines [Raise interrupt]
           [lit "x = 1"] (lit "  # note") [lit "y = 2"] [lit "x = 1"] [Raise interrupt] []
           interrupt []); reflexivity.
Defined.

(** C5, on three paragraphs whose second one meets a timeout. *)
Lemma C5_witness :
  for_append
    ([mkTextChunk (lit "one") PARAGRAPH] ++ mkTextChunk (lit "two") PARAGRAPH
       :: [mkTextChunk (lit "three") PARAGRAPH])
    (translate_chunk (C := scripted [])) []
    [Return (lit "yi"); Raise timeout; Return (lit "san")]
  = after ([EvLLM (translation_template (lit "one")) (Return (lit "yi"))]
             ++ [EvLLM (translation_template (lit "two")) (Raise timeout)])
      (for_append [mkTextChunk (lit "three") PARAGRAPH] (translate_chunk (C := scripted []))
         ([lit "yi"] ++ [FAILED ++ lit "two"]) [Return (lit "san")]).
Proof.
  refine (proj1 (proj2 (C5_failed_chunk_marked_and_loop_goes_on (C := scripted [])
            [mkTextChunk (lit "one") PARAGRAPH] [mkTextChunk (lit "three") PARAGRAPH]
            (mkTextChunk (lit "two") PARAGRAPH)
            [Return (lit "yi"); Raise timeout; Return (lit "san")]
            [lit "yi"] [Raise timeout; Return (lit "san")]
            [EvLLM (translation_template (lit "one")) (Return (lit "yi"))]
            timeout [Return (lit "san")] _ _ _ _))).
  - vm_compute. discriminate.
  - reflexivity.
  - reflexivity.
  - reflexivity.
Defined.

(** C5 as stated fails on a code chunk: the call for its comment line
    raises, and [translate_chunk] returns the chunk as it is, with no
    failure marker. *)
Lemma C5_code_chunk_without_marker :
  llm (Collaborators := scripted []) (translation_template (lit "# setup")) [Raise timeout]
  = (Raise timeout, [])
  /\ translate_chunk (C := scripted []) (mkTextChunk (lit "# setup") CODE) [Raise timeout]
     = (Return (lit "# setup"), [],
        [EvLLM (translation_template (lit "# setup")) (Raise timeout)])
  /\ lit "# setup" <> FAILED ++ lit "# setup".
Proof.
  split; [reflexivity|]. split; [reflexivity|]. vm_compute. discriminate.
Qed.

(** C2, on three chunks whose second one is blank. *)
Lemma C2_witness :
  blank_line_units (_merge_translated_chunks [lit " a "; lit "  "; lit "b" ++ NEWLINE])
  = [lit "a"; lit "b"].
Proof.
  refine (proj2 (C2_merge_units_of_nonblank_chunks
                   [lit " a "; lit "  "; lit "b" ++ NEWLINE] _) _).
  - vm_compute. discriminate.
  - vm_compute. intros chunk [<-|[<-|[]]]; reflexivity.
Defined.

(** C2 as stated fails: of three chunks the blank one is dropped, and the
    merged text has two units. *)
Lemma C2_blank_chunk_dropped :
  blank_line_units (_merge_translated_chunks [lit "a"; lit "  "; lit "b"]) = [lit "a"; lit "b"]
  /\ ~ (forall translated_chunks,
          length (blank_line_units (_merge_translated_chunks translated_chunks))
          = length translated_chunks).
Proof.
  split; [reflexivity|].
  intros H. specialize (H [lit "a"; lit "  "; lit "b"]). vm_compute in H. discriminate.
Qed.

(** C10, on a file that has a key and a URL while the environment has a key
    too: the key and the URL of the file are returned. *)
Lemma C10_witness :
  cfg_api_key (get_openai_config
                 (config_with_openai {[ API_KEY := lit "sk-file"; BASE_URL := lit "http://file/v1" ]})
                 {[ OPENAI_API_KEY := lit "sk-env" ]} None None)
  = get (config_with_openai {[ API_KEY := lit "sk-file"; BASE_URL := lit "http://file/v1" ]})
        OPENAI API_KEY None.
Proof.
  refine (proj1 (proj2 (C10_openai_config_precedence
            (config_with_openai {[ API_KEY := lit "sk-file"; BASE_URL := lit "http://file/v1" ]})
            {[ OPENAI_API_KEY := lit "sk-env" ]} None None)) _ _ _).
  - reflexivity.
  - vm_compute. reflexivity.
  - vm_compute. discriminate.
Defined.

(** C10 as stated fails twice. A key of the file that is empty, though it
    is not the placeholder, is not used: the key of the environment is.
    And when the [openai] section of the file has no [base_url], the
    variable [OPENAI_BASE_URL] of the environment is not read: the default
    URL is returned. *)
Lemma C10_empty_file_key_and_unread_environment_url :
  (let config := config_with_openai {[ API_KEY := [] ]} in
   let environ : gmap str str := {[ OPENAI_API_KEY := lit "sk-env" ]} in
   get config OPENAI API_KEY None = Some []
   /\ Some [] <> Some PLACEHOLDER
   /\ cfg_api_key (get_openai_config config environ None None) = Some (lit "sk-env"))
  /\ (let config := config_with_openai {[ API_KEY := lit "sk-file" ]} in
      let environ : gmap str str := {[ OPENAI_BASE_URL := lit "http://proxy/v1" ]} in
      get config OPENAI BASE_URL None = None
      /\ environ !! OPENAI_BASE_URL = Some (lit "http://proxy/v1")
      /\ cfg_base_url (get_openai_config config environ None None) = Some DEFAULT_BASE_URL
      /\ DEFAULT_BASE_URL <> lit "http://proxy/v1").
Proof.
  split; cbv zeta.
  - split; [vm_compute; reflexivity|]. split; [vm_compute; discriminate|].
    vm_compute. reflexivity.
  - split; [vm_compute; reflexivity|]. split; [vm_compute; reflexivity|].
    split; [vm_compute; reflexivity|]. vm_compute. discriminate.
Qed.

End Runs.

(** * Beyond the claims *)

(** ** The output parser and the merge step *)

Section Stripping.

Import ConfigManager.

Lemma lstrip_nonspace c (s : str) : isspace c = false -> lstrip (c :: s) = c :: s.
Proof. intros H. simpl. rewrite H. reflexivity. Qed.

Lemma lstrip_idem (s : str) : lstrip (lstrip s) = lstrip s.
Proof.
  induction s as [|c s IH]; [reflexivity|].
  simpl. destruct (isspace c) eqn:E; [exact IH|]. simpl. rewrite E. reflexivity.
Qed.

(** [lstrip] stops at the first character that is not a space. *)
Lemma lstrip_app_nonspace (x : str) c (y : str) :
  isspace c = false -> lstrip (x ++ c :: y) = lstrip x ++ c :: y.
Proof.
  intros H. induction x as [|d x IH]; simpl.
  - rewrite H. reflexivity.
  - destruct (isspace d); [exact IH|reflexivity].
Qed.

Lemma rstrip_idem (s : str) : rstrip (rstrip s) = rstrip s.
Proof. unfold rstrip. rewrite rev_involutive, lstrip_idem. reflexivity. Qed.

Lemma rstrip_cons_nonspace c (s : str) :
  isspace c = false -> rstrip (c :: s) = c :: rstrip s.
Proof.
  intros H. unfold rstrip. simpl rev.
  rewrite lstrip_app_nonspace by exact H. rewrite rev_app_distr. reflexivity.
Qed.

Lemma rstrip_snoc_nonspace (s : str) c :
  isspace c = false -> rstrip (s ++ [c]) = s ++ [c].
Proof.
  intros H. unfold rstrip. rewrite rev_app_distr. simpl.
  rewrite H. simpl. rewrite rev_involutive. reflexivity.
Qed.

(** A stripped text is empty or starts with a character that is not a
    space. *)
Lemma strip_head (s : str) :
  strip s = [] \/ exists c r, strip s = c :: r /\ isspace c = false.
Proof.
  unfold strip. destruct (lstrip s) as [|c r] eqn:E; [left; reflexivity|].
  right. pose proof (lstrip_head _ _ _ E) as Hc.
  rewrite rstrip_cons_nonspace by exact Hc. eauto.
Qed.

Lemma lstrip_strip (s : str) : lstrip (strip s) = strip s.
Proof.
  destruct (strip_head s) as [->|(c & r & -> & Hc)]; [reflexivity|].
  apply lstrip_nonspace, Hc.
Qed.

Lemma rstrip_strip (s : str) : rstrip (strip s) = strip s.
Proof. unfold strip. apply rstrip_idem. Qed.

Lemma strip_idem (s : str) : strip (strip s) = strip s.
Proof.
  unfold strip at 1. rewrite lstrip_strip. apply rstrip_strip.
Qed.

(** A text that starts and ends with characters that are not spaces is
    stripped. *)
Lemma stripped_ends c (m : str) d :
  isspace c = false -> isspace d = false -> stripped (c :: m ++ [d]).
Proof.
  intros Hc Hd. unfold stripped, strip. rewrite lstrip_nonspace by exact Hc.
  rewrite app_comm_cons. apply rstrip_snoc_nonspace, Hd.
Qed.

(** The shape of a stripped text: empty, or from a character that is not a
    space to one that is not a space. *)
Lemma stripped_shape (s : str) :
  stripped s ->
  s = [] \/ (exists c r, s = c :: r /\ isspace c = false)
            /\ (exists p d, s = p ++ [d] /\ isspace d = false).
Proof.
  unfold stripped. intros H.
  destruct (strip_head s) as [E|Hh]; [left; congruence|].
  destruct (strip_last s) as [E|Hl]; [left; congruence|].
  right. rewrite H in Hh, Hl. split; assumption.
Qed.

Lemma stripped_of_shape (s : str) :
  (exists c r, s = c :: r /\ isspace c = false) ->
  (exists p d, s = p ++ [d] /\ isspace d = false) ->
  stripped s.
Proof.
  intros (c & r & -> & Hc) (p & d & E & Hd).
  unfold stripped, strip. rewrite lstrip_nonspace by exact Hc.
  rewrite E. apply rstrip_snoc_nonspace, Hd.
Qed.

(** X1. The output parser is idempotent, and what it returns has no white
    space at either end: it is empty, or it starts and ends with characters
    that are not spaces. *)
Theorem X1_parse_idempotent_and_trimmed (text : str) :
  parse (parse text) = parse text
  /\ (parse text = []
      \/ (exists c r, parse text = c :: r /\ isspace c = false)
         /\ (exists p d, parse text = p ++ [d] /\ isspace d = false)).
Proof.
  unfold parse. split; [apply strip_idem|].
  apply stripped_shape, strip_idem.
Qed.

End Stripping.

Section Merging.

(** The pieces the merge step joins: the chunks that are not blank,
    stripped. *)
Local Abbreviation pieces_of chunks :=
  (List.map strip (List.filter (fun chunk => nonempty (strip chunk)) chunks)) (only parsing).

Lemma pieces_stripped (chunks : list str) :
  Forall (fun p => p <> [] /\ stripped p) (pieces_of chunks).
Proof.
  induction chunks as [|c chunks IH]; [constructor|].
  simpl. destruct (strip c) as [|x r] eqn:E; [exact IH|].
  simpl. constructor; [|exact IH].
  rewrite E. split; [discriminate|]. rewrite <- E. apply strip_idem.
Qed.

Lemma join_app sep (xs ys : list str) :
  xs <> [] -> ys <> [] -> join sep (xs ++ ys) = join sep xs ++ sep ++ join sep ys.
Proof.
  intros Hx Hy. induction xs as [|x [|x' xs] IH]; [congruence| |].
  - simpl. destruct ys; [congruence|reflexivity].
  - change ((x :: x' :: xs) ++ ys) with (x :: (x' :: xs) ++ ys).
    rewrite !join_cons by discriminate.
    rewrite IH by discriminate. rewrite <- !app_assoc. reflexivity.
Qed.

Lemma join_head sep c r (rest : list str) :
  exists r', join sep ((c :: r) :: rest) = c :: r'.
Proof. destruct rest; simpl; eauto. Qed.

Lemma join_snoc sep (xs : list str) p d :
  exists q, join sep (xs ++ [p ++ [d]]) = q ++ [d].
Proof.
  induction xs as [|x xs [q IH]].
  - exists p. reflexivity.
  - rewrite <- app_comm_cons, join_cons by (destruct xs; discriminate).
    rewrite IH. exists (x ++ sep ++ q). rewrite <- !app_assoc. reflexivity.
Qed.

(** Joining texts that are stripped and not empty gives a stripped text,
    whatever the separator. *)
Lemma stripped_join sep (pieces : list str) :
  Forall (fun p => p <> [] /\ stripped p) pieces -> stripped (join sep pieces).
Proof.
  intros H. destruct pieces as [|p0 rest]; [reflexivity|].
  apply stripped_of_shape.
  - inversion H as [|? ? [Hne Hs] _]; subst.
    destruct (stripped_shape _ Hs) as [->|[(c & r & -> & Hc) _]]; [congruence|].
    destruct (join_head sep c r rest) as [r' ->]. eauto.
  - destruct (exists_last (l := p0 :: rest)) as (xs & pl & E); [discriminate|].
    rewrite E in *. apply Forall_app in H as [_ H].
    inversion H as [|? ? [Hne Hs] _]; subst.
    destruct (stripped_shape _ Hs) as [->|[_ (p & d & -> & Hd)]]; [congruence|].
    destruct (join_snoc sep xs p d) as [q ->]. eauto.
Qed.

Lemma join_not_nil sep (pieces : list str) :
  pieces <> [] -> Forall (fun p => p <> [] /\ stripped p) pieces -> join sep pieces <> [].
Proof.
  intros Hne H. destruct pieces as [|p rest]; [congruence|].
  inversion H as [|? ? [Hp _] _]; subst.
  destruct p as [|c r]; [congruence|].
  destruct (join_head sep c r rest) as [r' ->]. discriminate.
Qed.

(** X2. The merged text is empty exactly when every chunk is blank: empty
    or made of white space only. An empty list of chunks is one case. *)
Theorem X2_merge_empty_iff_all_blank (translated_chunks : list str) :
  _merge_translated_chunks translated_chunks = []
  <-> forall chunk, In chunk translated_chunks -> strip chunk = [].
Proof.
  unfold _merge_translated_chunks. split.
  - intros H chunk Hin.
    destruct (strip chunk) as [|c r] eqn:E; [reflexivity|].
    exfalso. revert H. apply join_not_nil; [|apply pieces_stripped].
    intros Hnil. apply List.map_eq_nil in Hnil.
    assert (Hk : In chunk (List.filter (fun chunk => nonempty (strip chunk)) translated_chunks)).
    { apply List.filter_In. rewrite E. split; [exact Hin|reflexivity]. }
    rewrite Hnil in Hk. destruct Hk.
  - intros H.
    replace (List.filter (fun chunk => nonempty (strip chunk)) translated_chunks) with (@nil str);
      [reflexivity|].
    symmetry. induction translated_chunks as [|c chunks IH]; [reflexivity|].
    simpl. rewrite (H c) by (left; reflexivity). simpl.
    apply IH. intros chunk Hin. apply H. right. exact Hin.
Qed.

(** X3. The merged text has no white space at either end: stripping it
    changes nothing. *)
Theorem X3_merge_is_stripped (translated_chunks : list str) :
  strip (_merge_translated_chunks translated_chunks)
  = _merge_translated_chunks translated_chunks.
Proof. apply stripped_join, pieces_stripped. Qed.

(** The merge of two stripped texts. *)
Lemma merge_two (a b : str) :
  stripped a -> stripped b ->
  _merge_translated_chunks [a; b]
  = match a, b with
    | [], _ => b
    | _, [] => a
    | _, _ => a ++ (NEWLINE ++ NEWLINE) ++ b
    end.
Proof.
  unfold stripped, _merge_translated_chunks. intros Ha Hb.
  cbn [List.filter]. rewrite Ha, Hb.
  destruct a as [|c a], b as [|d b]; cbn [nonempty List.map join]; rewrite ?Ha, ?Hb; reflexivity.
Qed.

(** X4. Merging in groups is merging at once: the merge of two lists of
    chunks put end to end is the merge of the two merged texts. *)
Theorem X4_merge_of_merges (first second : list str) :
  _merge_translated_chunks (first ++ second)
  = _merge_translated_chunks
      [_merge_translated_chunks first; _merge_translated_chunks second].
Proof.
  pose proof (pieces_stripped first) as Hf. pose proof (pieces_stripped second) as Hs.
  rewrite merge_two by (apply stripped_join, pieces_stripped).
  unfold _merge_translated_chunks. rewrite List.filter_app, List.map_app.
  destruct (pieces_of first) as [|p pf] eqn:Ef.
  - simpl. reflexivity.
  - pose proof (join_not_nil (NEWLINE ++ NEWLINE) (p :: pf) ltac:(discriminate) Hf) as Hn.
    destruct (pieces_of second) as [|q ps] eqn:Es.
    + rewrite app_nil_r. simpl join at 3.
      destruct (join (NEWLINE ++ NEWLINE) (p :: pf)); [congruence|reflexivity].
    + pose proof (join_not_nil (NEWLINE ++ NEWLINE) (q :: ps) ltac:(discriminate) Hs) as Hm.
      rewrite join_app by discriminate.
      destruct (join (NEWLINE ++ NEWLINE) (p :: pf)); [congruence|].
      destruct (join (NEWLINE ++ NEWLINE) (q :: ps)); [congruence|reflexivity].
Qed.

End Merging.

(** ** Code blocks and the loop over the chunks *)

Section MoreChunks.

Context {W Summary : Type} {C : Collaborators W Summary}.



(** X6. A comment line indented with spaces only, whose call returns, comes
    back with the same indentation in front of the stripped answer of the
    model. *)
Theorem X6_space_indentation_kept n (body : str) (w : W) text w1 :
  lstrip body = body ->
  is_comment_line (replicate n SPACE ++ body) = true ->
  llm (translation_template (strip (replicate n SPACE ++ body))) w = (Return text, w1) ->
  translate_code_line (replicate n SPACE ++ body) w
  = (Return (replicate n SPACE ++ parse text), w1,
     [EvLLM (translation_template (strip (replicate n SPACE ++ body))) (Return text)]).
Proof. apply translate_code_line_space_indent. Qed.

(** What [translate_chunk] does with a chunk that is not a code chunk. *)
Lemma translate_chunk_text (chunk : TextChunk) (w : W) :
  chunk_type chunk <> CODE ->
  translate_chunk chunk w
  = match llm (translation_template (content chunk)) w with
    | (Return text, w1) =>
        (Return (parse text), w1,
         [EvLLM (translation_template (content chunk)) (Return text)])
    | (Raise e, w1) =>
        (if is_Exception e then Return (FAILED ++ content chunk) else Raise e, w1,
         [EvLLM (translation_template (content chunk)) (Raise e)])
    end.
Proof.
  intros H. apply eqb_neq in H.
  unfold translate_chunk, try_except_Exception, translation_chain_invoke, bind, call.
  rewrite H. destruct (llm (translation_template (content chunk)) w) as [[text|e] w1];
    [reflexivity|]. destruct (is_Exception e); reflexivity.
Qed.

Lemma for_append_length {A B} (body : A -> M W Summary B) (xs : list A) :
  forall acc w outs w' t,
    for_append xs body acc w = (Return outs, w', t) ->
    length outs = length acc + length xs.
Proof.
  induction xs as [|x xs IH]; intros acc w outs w' t.
  - simpl. unfold ret. intros H. injection H as <- _ _. lia.
  - rewrite for_append_cons. destruct (body x w) as [[[y|e] w1] t1]; [|discriminate].
    destruct (for_append xs body (acc ++ [y]) w1) as [[[outs'|e] w2] t2] eqn:E; [|discriminate].
    simpl. intros H. injection H as <- _ _.
    rewrite (IH _ _ _ _ _ E), length_app. simpl. lia.
Qed.

Lemma text_chunks_sent (chunks : list TextChunk) :
  (forall chunk, In chunk chunks -> chunk_type chunk <> CODE) ->
  forall acc (w : W) outs w' t,
    for_append chunks translate_chunk acc w = (Return outs, w', t) ->
    prompts_sent t = List.map (fun chunk => translation_template (content chunk)) chunks.
Proof.
  induction chunks as [|chunk chunks IH]; intros Hc acc w outs w' t.
  - simpl. unfold ret. intros H. injection H as _ _ <-. reflexivity.
  - rewrite for_append_cons, translate_chunk_text by (apply Hc; left; reflexivity).
    assert (Hrest : forall chunk, In chunk chunks -> chunk_type chunk <> CODE)
      by (intros c Hin; apply Hc; right; exact Hin).
    destruct (llm (translation_template (content chunk)) w) as [[text|e] w1].
    + destruct (for_append chunks translate_chunk (acc ++ [parse text]) w1)
        as [[[outs'|e] w2] t2] eqn:E; [|discriminate].
      simpl. intros H. injection H as _ _ <-.
      simpl. rewrite (IH Hrest _ _ _ _ _ E). reflexivity.
    + destruct (is_Exception e); [|discriminate].
      destruct (for_append chunks translate_chunk (acc ++ [FAILED ++ content chunk]) w1)
        as [[[outs'|e'] w2] t2] eqn:E; [|discriminate].
      simpl. intros H. injection H as _ _ <-.
      simpl. rewrite (IH Hrest _ _ _ _ _ E). reflexivity.
Qed.

(** X7. When the loop of [translate_content] over the chunks returns, it
    returns one text for each chunk, failed chunks included; and when no
    chunk is a code chunk the model was sent the contents of the chunks,
    each once and whole, in the order of the chunks. *)
Theorem X7_one_translation_per_chunk (chunks : list TextChunk) (w : W) outs w' t :
  for_append chunks translate_chunk [] w = (Return outs, w', t) ->
  length outs = length chunks
  /\ ((forall chunk, In chunk chunks -> chunk_type chunk <> CODE) ->
      prompts_sent t = List.map (fun chunk => translation_template (content chunk)) chunks).
Proof.
  intros H. split.
  - exact (for_append_length _ _ _ _ _ _ _ H).
  - intros Hc. exact (text_chunks_sent _ Hc _ _ _ _ _ H).
Qed.

End MoreChunks.

(** ** Whole runs *)

Section MoreRuns.

Context {W Summary : Type} {C : Collaborators W Summary}.

(** When [translate_chunk] raises, it has made one call, which raised, and
    what was raised is not an [Exception]. *)
Lemma translate_chunk_raise_last (chunk : TextChunk) (w : W) e w' t :
  translate_chunk chunk w = (Raise e, w', t) ->
  t = [EvLLM (translation_template (content chunk)) (Raise e)] /\ is_Exception e = false.
Proof.
  destruct (PyStr.eqb (chunk_type chunk) CODE) eqn:Ec.
  - apply eqb_eq in Ec. unfold translate_chunk, try_except_Exception.
    rewrite Ec, eqb_refl.
    destruct (translate_code_block_returns (content chunk) w) as (out & w1 & t1 & ->).
    discriminate.
  - apply eqb_neq in Ec. rewrite (translate_chunk_text _ _ Ec).
    destruct (llm (translation_template (content chunk)) w) as [[text|e0] w1]; [discriminate|].
    destruct (is_Exception e0) eqn:He; [discriminate|].
    intros H. injection H as <- _ <-. split; [reflexivity|exact He].
Qed.

Lemma chunks_loop_raise (chunks : list TextChunk) :
  forall acc (w : W) e w' t,
    for_append chunks translate_chunk acc w = (Raise e, w', t) ->
    raised_by_last_call e t.
Proof.
  induction chunks as [|chunk chunks IH]; intros acc w e w' t.
  - simpl. unfold ret. discriminate.
  - rewrite for_append_cons.
    destruct (translate_chunk chunk w) as [[[y|e0] w1] t1] eqn:E.
    + destruct (for_append chunks translate_chunk (acc ++ [y]) w1) as [[[outs|e1] w2] t2] eqn:E2;
        [discriminate|].
      simpl. intros H. injection H as <- _ <-.
      destruct (IH _ _ _ _ _ E2) as (ev & Hl & Hr & Hm).
      exists ev. rewrite last_app, Hl. auto.
    + intros H. injection H as <- _ <-.
      destruct (translate_chunk_raise_last _ _ _ _ _ E) as [-> He].
      eexists. split; [reflexivity|]. split; [reflexivity|]. intros _. exact He.
Qed.

Lemma raised_by_last_call_after (e : exn) (t1 t2 : list (event Summary)) :
  raised_by_last_call e t2 -> raised_by_last_call e (t1 ++ t2).
Proof.
  intros (ev & Hl & Hr & Hm). exists ev. rewrite last_app, Hl. auto.
Qed.

(** What [second_pass] raises. *)
Lemma second_pass_raise content os chunks merged ts cr (w5 : W) e w' t :
  second_pass content os chunks merged ts cr w5 = (Raise e, w', t) ->
  raised_by_last_call e t.
Proof.
  destruct ((completeness_score cr <? 8)%Z
            && negb (PyStr.eqb (missing_content cr) NONE_MISSING)) eqn:Hc.
  - apply incomplete_true in Hc.
    destruct (llm (retranslation_template content (missing_content cr)) w5)
      as [[text|e0] w6] eqn:E.
    + destruct (parse text) as [|c r] eqn:Ep.
      * rewrite (second_pass_empty _ _ _ _ _ _ _ _ _ Hc E Ep). discriminate.
      * rewrite (second_pass_adopted _ _ _ _ _ _ _ _ _ Hc E) by congruence.
        rewrite Ep.
        destruct (generate_translated_summary (c :: r) w6) as [[ts'|e1] w7].
        -- destruct (compare_summaries os ts' w7) as [[cr'|e2] w8]; [discriminate|].
           simpl. intros H. injection H as <- _ <-.
           eexists. split; [reflexivity|]. split; [reflexivity|]. discriminate.
        -- simpl. intros H. injection H as <- _ <-.
           eexists. split; [reflexivity|]. split; [reflexivity|]. discriminate.
    + rewrite (second_pass_failed _ _ _ _ _ _ _ _ _ Hc E).
      destruct (is_Exception e0) eqn:He; [discriminate|].
      intros H. injection H as <- _ <-.
      eexists. split; [reflexivity|]. split; [reflexivity|]. intros _. exact He.
  - apply incomplete_false in Hc.
    rewrite (second_pass_complete _ _ _ _ _ _ _ Hc). discriminate.
Qed.

(** [second_pass] calls the retranslation chain once at most. *)
Lemma second_pass_retranslation_calls content os chunks merged ts cr (w5 : W) :
  calls is_retranslation_call (second_pass content os chunks merged ts cr w5).2 <= 1.
Proof.
  destruct ((completeness_score cr <? 8)%Z
            && negb (PyStr.eqb (missing_content cr) NONE_MISSING)) eqn:Hc.
  - apply incomplete_true in Hc.
    destruct (llm (retranslation_template content (missing_content cr)) w5)
      as [[text|e0] w6] eqn:E.
    + destruct (parse text) as [|c r] eqn:Ep.
      * rewrite (second_pass_empty _ _ _ _ _ _ _ _ _ Hc E Ep). reflexivity.
      * rewrite (second_pass_adopted _ _ _ _ _ _ _ _ _ Hc E) by congruence.
        rewrite Ep.
        destruct (generate_translated_summary (c :: r) w6) as [[ts'|e1] w7]; [|reflexivity].
        destruct (compare_summaries os ts' w7) as [[cr'|e2] w8]; reflexivity.
    + rewrite (second_pass_failed _ _ _ _ _ _ _ _ _ Hc E). reflexivity.
  - apply incomplete_false in Hc.
    rewrite (second_pass_complete _ _ _ _ _ _ _ Hc). unfold calls. simpl. lia.
Qed.

(** A run makes a first pass and goes on with [second_pass], or raises
    before the first comparison is made, without having called the
    retranslation chain. *)
Lemma translate_content_cases content (w : W) :
  (exists os chunks merged ts cr w5 t5,
      first_pass content w os chunks merged ts cr w5 t5
      /\ translate_content content w = after t5 (second_pass content os chunks merged ts cr w5))
  \/ (exists e w' t,
        translate_content content w = (Raise e, w', t)
        /\ calls is_retranslation_call t = 0
        /\ raised_by_last_call e t).
Proof.
  destruct (generate_original_summary content w) as [[os|e] w1] eqn:E1;
    [destruct (chunk_text content w1) as [[chunks|e] w2] eqn:E2;
     [destruct (for_append chunks translate_chunk [] w2) as [[[tcs|e] w3] t3] eqn:E3;
      [destruct (generate_translated_summary (_merge_translated_chunks tcs) w3)
         as [[ts|e] w4] eqn:E4;
       [destruct (compare_summaries os ts w4) as [[cr|e] w5] eqn:E5|]|]|]|].
  1: { left.
       assert (Hfp : first_pass content w os chunks (_merge_translated_chunks tcs) ts cr w5
                       ([EvOriginalSummary content (Return os); EvChunk content (Return chunks)]
                          ++ t3
                          ++ [EvTranslatedSummary (_merge_translated_chunks tcs) (Return ts);
                              EvCompare os ts (Return cr)]))
         by (exists w1, w2, tcs, w3, t3, w4; repeat split; assumption).
       do 7 eexists. split; [exact Hfp|]. apply (first_pass_then _ _ _ _ _ _ _ _ _ Hfp). }
  all: right; rewrite translate_content_split;
    pose proof (for_append_calls _ _ translate_chunk_calls) as Hcalls.
  - unfold bind at 1, call at 1; rewrite E1; cbv beta iota.
    unfold bind at 1, call at 1; rewrite E2; cbv beta iota.
    unfold bind at 1; rewrite E3; cbv beta iota zeta.
    unfold bind at 1, call at 1; rewrite E4; cbv beta iota.
    unfold bind at 1, call at 1; rewrite E5; cbv beta iota.
    specialize (Hcalls chunks [] w2). rewrite E3 in Hcalls. simpl in Hcalls.
    do 3 eexists. split; [reflexivity|]. split.
    + rewrite !calls_app, (translation_calls_no_retranslation _ Hcalls). reflexivity.
    + rewrite !app_assoc. eexists. rewrite last_snoc.
      split; [reflexivity|]. split; [reflexivity|]. discriminate.
  - unfold bind at 1, call at 1; rewrite E1; cbv beta iota.
    unfold bind at 1, call at 1; rewrite E2; cbv beta iota.
    unfold bind at 1; rewrite E3; cbv beta iota zeta.
    unfold bind at 1, call at 1; rewrite E4; cbv beta iota.
    specialize (Hcalls chunks [] w2). rewrite E3 in Hcalls. simpl in Hcalls.
    do 3 eexists. split; [reflexivity|]. split.
    + rewrite !calls_app, (translation_calls_no_retranslation _ Hcalls). reflexivity.
    + rewrite !app_assoc. eexists. rewrite last_snoc.
      split; [reflexivity|]. split; [reflexivity|]. discriminate.
  - unfold bind at 1, call at 1; rewrite E1; cbv beta iota.
    unfold bind at 1, call at 1; rewrite E2; cbv beta iota.
    unfold bind at 1; rewrite E3; cbv beta iota zeta.
    specialize (Hcalls chunks [] w2). rewrite E3 in Hcalls. simpl in Hcalls.
    do 3 eexists. split; [reflexivity|]. split.
    + rewrite !calls_app, (translation_calls_no_retranslation _ Hcalls). reflexivity.
    + rewrite app_assoc. apply raised_by_last_call_after.
      exact (chunks_loop_raise _ _ _ _ _ _ E3).
  - unfold bind at 1, call at 1; rewrite E1; cbv beta iota.
    unfold bind at 1, call at 1; rewrite E2; cbv beta iota.
    do 3 eexists. split; [reflexivity|]. split; [reflexivity|].
    eexists. split; [reflexivity|]. split; [reflexivity|]. discriminate.
  - unfold bind at 1, call at 1; rewrite E1; cbv beta iota.
    do 3 eexists. split; [reflexivity|]. split; [reflexivity|].
    eexists. split; [reflexivity|]. split; [reflexivity|]. discriminate.
Qed.

(** X8. In any run of [translate_content], whether it returns or raises and
    wherever it stops, the retranslation chain is called once at most. *)
Theorem X8_at_most_one_retranslation content (w : W) :
  calls is_retranslation_call (translate_content content w).2 <= 1.
Proof.
  destruct (translate_content_cases content w)
    as [(os & chunks & merged & ts & cr & w5 & t5 & Hfp & ->)|(e & w' & t & -> & H0 & _)].
  - rewrite after_trace, calls_app, (first_pass_no_retranslation _ _ _ _ _ _ _ _ _ Hfp).
    apply second_pass_retranslation_calls.
  - simpl. lia.
Qed.

(** X9. When [translate_content] raises, what it raises is what the last
    call of the run raised; and if that call was a call of the model, it is
    not an [Exception]: no [Exception] raised by the model ever ends a
    run. *)
Theorem X9_only_collaborators_abort_a_run content (w : W) e w' tr :
  translate_content content w = (Raise e, w', tr) ->
  raised_by_last_call e tr.
Proof.
  destruct (translate_content_cases content w)
    as [(os & chunks & merged & ts & cr & w5 & t5 & Hfp & ->)|(e0 & w0 & t & -> & _ & Hr)].
  - destruct (second_pass content os chunks merged ts cr w5) as [[r w6] t6] eqn:E.
    simpl. intros H. injection H as -> _ <-.
    apply raised_by_last_call_after. exact (second_pass_raise _ _ _ _ _ _ _ _ _ _ E).
  - intros H. injection H as <- _ <-. exact Hr.
Qed.

(** X10. Once a retranslation is adopted, a failure of the summary made of
    it, or of the comparison that follows, ends the run with that
    exception: neither the merged translation nor the retranslation is
    returned. *)
Theorem X10_failed_second_check_aborts
    content (w : W) os chunks merged ts cr w5 t5 text w6 :
  first_pass content w os chunks merged ts cr w5 t5 ->
  (completeness_score cr < 8)%Z ->
  missing_content cr <> NONE_MISSING ->
  llm (retranslation_template content (missing_content cr)) w5 = (Return text, w6) ->
  parse text <> [] ->
  let retranslation := EvLLM (retranslation_template content (missing_content cr)) (Return text) in
  (forall e w7,
      generate_translated_summary (parse text) w6 = (Raise e, w7) ->
      translate_content content w
      = (Raise e, w7, t5 ++ [retranslation; EvTranslatedSummary (parse text) (Raise e)]))
  /\ (forall ts' w7 e w8,
        generate_translated_summary (parse text) w6 = (Return ts', w7) ->
        compare_summaries os ts' w7 = (Raise e, w8) ->
        translate_content content w
        = (Raise e, w8,
           t5 ++ [retranslation; EvTranslatedSummary (parse text) (Return ts');
                  EvCompare os ts' (Raise e)])).
Proof.
  intros H Hs Hm E Hp. cbv zeta. split.
  - intros e w7 E7.
    rewrite (first_pass_then _ _ _ _ _ _ _ _ _ H),
      (second_pass_adopted _ _ _ _ _ _ _ _ _ (conj Hs Hm) E Hp), E7.
    reflexivity.
  - intros ts' w7 e w8 E7 E8.
    rewrite (first_pass_then _ _ _ _ _ _ _ _ _ H),
      (second_pass_adopted _ _ _ _ _ _ _ _ _ (conj Hs Hm) E Hp), E7, E8.
    reflexivity.
Qed.

(** X11. A document for which the chunker returns no chunk: the model is
    not called for any chunk, the summary of the empty text is still made
    and compared with the original one, and when that comparison does not
    open the retranslation branch the run returns the empty text with a
    chunk count of 0. *)
Theorem X11_no_chunk_gives_empty_translation content (w : W) os w1 w2 ts w3 cr w4 :
  generate_original_summary content w = (Return os, w1) ->
  chunk_text content w1 = (Return [], w2) ->
  generate_translated_summary [] w2 = (Return ts, w3) ->
  compare_summaries os ts w3 = (Return cr, w4) ->
  ~ ((completeness_score cr < 8)%Z /\ missing_content cr <> NONE_MISSING) ->
  translate_content content w
  = (Return ([], mkStats os ts cr 0 (completeness_score cr)), w4,
     [EvOriginalSummary content (Return os); EvChunk content (Return []);
      EvTranslatedSummary [] (Return ts); EvCompare os ts (Return cr)]).
Proof.
  intros E1 E2 E4 E5 Hc.
  assert (Hfp : first_pass content w os [] [] ts cr w4
                  ([EvOriginalSummary content (Return os); EvChunk content (Return [])]
                     ++ [] ++ [EvTranslatedSummary [] (Return ts); EvCompare os ts (Return cr)])).
  { exists w1, w2, [], w2, [], w3. repeat split; assumption. }
  rewrite (first_pass_then _ _ _ _ _ _ _ _ _ Hfp), (second_pass_complete _ _ _ _ _ _ _ Hc).
  reflexivity.
Qed.

(** X12. The translation a run returns has no white space at either end,
    whether it is the merged translation or a retranslation. *)
Theorem X12_returned_translation_is_stripped content (w : W) out stats w' tr :
  translate_content content w = (Return (out, stats), w', tr) ->
  strip out = out.
Proof.
  intros H.
  destruct (translate_content_returns _ _ _ _ _ H)
    as (os & chunks & merged & ts & cr & w5 & t5 & Hfp & Hrun).
  assert (Hmerged : strip merged = merged).
  { destruct Hfp as (w1 & w2 & tcs & w3 & t3 & w4 & _ & _ & _ & -> & _).
    apply stripped_join, pieces_stripped. }
  destruct ((completeness_score cr <? 8)%Z
            && negb (PyStr.eqb (missing_content cr) NONE_MISSING)) eqn:Hc.
  - apply incomplete_true in Hc.
    destruct (llm (retranslation_template content (missing_content cr)) w5)
      as [[text|e] w6] eqn:E.
    + destruct (parse text) as [|c r] eqn:Ep.
      * rewrite (second_pass_empty _ _ _ _ _ _ _ _ _ Hc E Ep) in Hrun.
        injection Hrun as <- _ _ _. exact Hmerged.
      * rewrite (second_pass_adopted _ _ _ _ _ _ _ _ _ Hc E) in Hrun by congruence.
        rewrite Ep in Hrun.
        destruct (generate_translated_summary (c :: r) w6) as [[ts'|e] w7]; [|discriminate].
        destruct (compare_summaries os ts' w7) as [[cr'|e] w8]; [|discriminate].
        injection Hrun as <- _ _ _. rewrite <- Ep. apply strip_idem.
    + rewrite (second_pass_failed _ _ _ _ _ _ _ _ _ Hc E) in Hrun.
      destruct (is_Exception e); [|discriminate].
      injection Hrun as <- _ _ _. exact Hmerged.
  - apply incomplete_false in Hc.
    rewrite (second_pass_complete _ _ _ _ _ _ _ Hc) in Hrun.
    injection Hrun as <- _ _ _. exact Hmerged.
Qed.

(** *** [translate_with_context] *)

Section WithContextFacts.

Variable enhanced_chain_invoke : str -> str -> M W Summary str.

Lemma paragraph_is_not_code : PARAGRAPH_TYPE <> CODE.
Proof. intros H. vm_compute in H. discriminate. Qed.

(** X13. [translate_with_context] raises no [Exception], whatever the chain
    of the context does: what it lets through was raised by that chain or by
    the model and is not an [Exception]. With an empty context it is the
    translation of the content as one paragraph chunk. *)
Theorem X13_translate_with_context_contains_failures content context (w : W) :
  (forall e w' t,
      translate_with_context enhanced_chain_invoke content context w = (Raise e, w', t) ->
      is_Exception e = false)
  /\ (context = [] ->
      translate_with_context enhanced_chain_invoke content context w
      = translate_chunk (mkTextChunk content PARAGRAPH_TYPE) w).
Proof.
  split.
  - intros e w' t. unfold translate_with_context.
    destruct (nonempty context); [|apply translate_chunk_raise].
    unfold try_except_Exception.
    destruct (enhanced_chain_invoke content context w) as [[[a|e0] w1] t1]; [discriminate|].
    destruct (is_Exception e0) eqn:He.
    + destruct (translate_chunk (mkTextChunk content PARAGRAPH_TYPE) w1)
        as [[[a|e1] w2] t2] eqn:E; [discriminate|].
      simpl. intros H. injection H as <- _ _. exact (translate_chunk_raise _ _ _ _ _ E).
    + intros H. injection H as <- _ _. exact He.
  - intros ->. reflexivity.
Qed.

(** X14. With a context, when its chain raises an [Exception],
    [translate_with_context] falls back on the plain translation of the
    content, from the world the failed chain left: it returns the stripped
    answer of the model, or the failure marker followed by the content when
    that call raises an [Exception] too. *)
Theorem X14_translate_with_context_falls_back content context (w : W) e w1 t1 :
  context <> [] ->
  enhanced_chain_invoke content context w = (Raise e, w1, t1) ->
  is_Exception e = true ->
  translate_with_context enhanced_chain_invoke content context w
  = after t1
      match llm (translation_template content) w1 with
      | (Return text, w2) =>
          (Return (parse text), w2, [EvLLM (translation_template content) (Return text)])
      | (Raise e2, w2) =>
          (if is_Exception e2 then Return (FAILED ++ content) else Raise e2, w2,
           [EvLLM (translation_template content) (Raise e2)])
      end.
Proof.
  intros Hc E He. unfold translate_with_context, try_except_Exception.
  destruct context; [congruence|]. cbn [nonempty].
  rewrite E, He.
  rewrite (translate_chunk_text (mkTextChunk content PARAGRAPH_TYPE) w1 paragraph_is_not_code).
  reflexivity.
Qed.

End WithContextFacts.

End MoreRuns.

(** ** The rest of the configuration manager *)

Section MoreConfig.

Import ConfigManager.

(** A fallback is used only when the file has nothing to give. *)
Lemma get_fallback (config : ConfigParser) section name fallback :
  get config section name fallback
  = match get config section name None with
    | Some v => Some v
    | None => fallback
    end.
Proof.
  unfold get. destruct (_sections config !! section) as [sec|]; [|reflexivity].
  destruct (sec !! name); [reflexivity|]. destruct (_defaults config !! name); reflexivity.
Qed.

(** X15. [get_qwen_config] resolves the key in this order: an argument that
    is not empty; otherwise the [api_key] of the [qwen] section of the file,
    when there is one and it is neither empty nor the placeholder of the
    sample file; otherwise the environment variable [DASHSCOPE_API_KEY],
    [None] when it is not set. *)
Theorem X15_qwen_config_precedence
    (self_config : ConfigParser) (environ : gmap str str) (api_key : option str) :
  let key := qwen_api_key (get_qwen_config self_config environ api_key) in
  let file_api_key := get self_config QWEN API_KEY None in
  (truthy api_key = true -> key = api_key)
  /\ (truthy api_key = false -> truthy file_api_key = true ->
      file_api_key <> Some QWEN_PLACEHOLDER ->
      key = file_api_key)
  /\ (truthy api_key = false ->
      truthy file_api_key = false \/ file_api_key = Some QWEN_PLACEHOLDER ->
      key = environ !! DASHSCOPE_API_KEY).
Proof.
  cbv zeta. unfold get_qwen_config, getenv. repeat apply conj.
  - intros Ha. rewrite Ha. cbn [negb andb qwen_api_key]. rewrite Ha. reflexivity.
  - intros Ha Hf Hp. rewrite Ha. cbn [negb andb qwen_api_key].
    destruct (truthy_some _ Hf) as (v & Ev & Hv).
    rewrite (get_some_section _ _ _ _ Ev), (equals_false _ _ Hp).
    cbn [qwen_api_key]. rewrite Hf. reflexivity.
  - intros Ha Hf. rewrite Ha. cbn [negb andb qwen_api_key].
    destruct (has_section self_config QWEN).
    + destruct Hf as [Hf|Hf].
      * destruct (equals _ QWEN_PLACEHOLDER); cbn [qwen_api_key]; [|rewrite Hf];
          destruct (environ !! DASHSCOPE_API_KEY); reflexivity.
      * rewrite Hf. destruct (environ !! DASHSCOPE_API_KEY); reflexivity.
    + cbn [qwen_api_key]. rewrite Ha. destruct (environ !! DASHSCOPE_API_KEY); reflexivity.
Qed.

(** X16. Feeding the configuration [get_openai_config] returns back to it
    as arguments returns the same configuration: resolving twice, as the
    objects that receive the resolved key and URL may do, changes
    nothing. *)
Theorem X16_openai_config_resolved_again
    (self_config : ConfigParser) (environ : gmap str str) (api_key base_url : option str) :
  let config := get_openai_config self_config environ api_key base_url in
  get_openai_config self_config environ (cfg_api_key config) (cfg_base_url config) = config.
Proof.
  cbv zeta.
  assert (Heta : forall a b : OpenAIConfig,
             cfg_api_key a = cfg_api_key b -> cfg_base_url a = cfg_base_url b -> a = b).
  { intros [a1 a2] [b1 b2]. simpl. congruence. }
  apply Heta.
  - rewrite !api_key_resolved. cbv zeta. unfold getenv.
    generalize (equals (get self_config OPENAI API_KEY None) PLACEHOLDER).
    generalize (get self_config OPENAI API_KEY None).
    generalize (has_section self_config OPENAI).
    generalize (environ !! OPENAI_API_KEY).
    intros [[|? ?]|] [|] [[|? ?]|] [|]; destruct api_key as [[|? ?]|]; reflexivity.
  - rewrite !base_url_resolved. cbv zeta. unfold getenv.
    generalize (get self_config OPENAI BASE_URL (Some DEFAULT_BASE_URL)).
    generalize (has_section self_config OPENAI).
    generalize (environ !! OPENAI_BASE_URL).
    intros [[|? ?]|] [|] [[|? ?]|]; destruct base_url as [[|? ?]|]; reflexivity.
Qed.

(** X17. The URL [get_openai_config] returns is never [None]; and it is the
    empty string only when the environment variable [OPENAI_BASE_URL] is set
    to the empty string. *)
Theorem X17_openai_base_url_is_a_string
    (self_config : ConfigParser) (environ : gmap str str) (api_key base_url : option str) :
  exists url,
    cfg_base_url (get_openai_config self_config environ api_key base_url) = Some url
    /\ (url = [] -> environ !! OPENAI_BASE_URL = Some []).
Proof.
  rewrite base_url_resolved. cbv zeta. unfold getenv.
  generalize (get self_config OPENAI BASE_URL (Some DEFAULT_BASE_URL)).
  generalize (has_section self_config OPENAI).
  destruct (environ !! OPENAI_BASE_URL) as [[|? ?]|];
    intros [|] [[|? ?]|]; destruct base_url as [[|? ?]|];
    cbn [negb andb truthy]; eexists; (split; [reflexivity|]);
    try reflexivity; try discriminate; intros H; vm_compute in H; discriminate.
Qed.

End MoreConfig.

Section Defaults.

Import ConfigManager.

Lemma lookup_assign (defaults : gmap str str) key value key' :
  assign defaults key value !! key'
  = if decide (key = key')
    then match value with Some v => Some v | None => defaults !! key' end
    else defaults !! key'.
Proof.
  unfold assign. destruct value as [v|].
  - rewrite lookup_insert. reflexivity.
  - destruct (decide (key = key')); reflexivity.
Qed.

(** The loop over the keys: a key that is visited takes the value the file
    gives it, if it gives one; nothing else changes. *)
Lemma defaults_loop_lookup (self_config : ConfigParser) (keys : list str) :
  forall (defaults : gmap str str) key,
    NoDup keys ->
    foldl (fun defaults key =>
             assign defaults key (get self_config DEFAULT_SECTION key (defaults !! key)))
          defaults keys !! key
    = if decide (key ∈ keys)
      then match get self_config DEFAULT_SECTION key None with
           | Some v => Some v
           | None => defaults !! key
           end
      else defaults !! key.
Proof.
  induction keys as [|k keys IH]; intros defaults key Hnd.
  - simpl. destruct (decide (key ∈ [])) as [H|_]; [inversion H|reflexivity].
  - apply NoDup_cons in Hnd as [Hk Hnd]. simpl. rewrite (IH _ _ Hnd).
    rewrite lookup_assign, (get_fallback _ _ k (defaults !! k)).
    destruct (decide (k = key)) as [->|Hne].
    + destruct (decide (key ∈ keys)) as [H|_]; [contradiction|].
      destruct (decide (key ∈ key :: keys)) as [_|H]; [|exfalso; apply H; left].
      destruct (get self_config DEFAULT_SECTION key None); [reflexivity|].
      destruct (defaults !! key); reflexivity.
    + destruct (decide (key ∈ keys)) as [H|H];
        destruct (decide (key ∈ k :: keys)) as [H'|H']; try reflexivity.
      * exfalso. apply H'. right. exact H.
      * apply elem_of_cons in H' as [->|H']; [congruence|contradiction].
Qed.

Lemma default_keys_NoDup : NoDup default_keys.
Proof. apply (bool_decide_unpack _). vm_compute. exact I. Qed.

(** The values after the file is read, before the environment is. *)
Lemma defaults_from_file (self_config : ConfigParser) key :
  (if has_section self_config DEFAULT_SECTION
   then foldl (fun defaults key =>
                 assign defaults key (get self_config DEFAULT_SECTION key (defaults !! key)))
              hard_coded_defaults default_keys
   else hard_coded_defaults) !! key
  = if decide (key ∈ default_keys)
    then match get self_config DEFAULT_SECTION key None with
         | Some v => Some v
         | None => hard_coded_defaults !! key
         end
    else hard_coded_defaults !! key.
Proof.
  destruct (has_section self_config DEFAULT_SECTION) eqn:Hs.
  - apply defaults_loop_lookup, default_keys_NoDup.
  - unfold has_section in Hs. unfold get.
    destruct (_sections self_config !! DEFAULT_SECTION); [discriminate|].
    destruct (decide (key ∈ default_keys)); reflexivity.
Qed.

Lemma model_name_is_not_provider : MODEL_NAME_KEY <> PROVIDER_KEY.
Proof. intros E. vm_compute in E. discriminate. Qed.

(** One entry of the dictionary [get_default_config] returns. *)
Lemma get_default_config_lookup
    (self_config : ConfigParser) (environ : gmap str str) (key : str) :
  get_default_config self_config environ !! key
  = let from_file :=
      if decide (key ∈ default_keys)
      then match get self_config DEFAULT_SECTION key None with
           | Some v => Some v
           | None => hard_coded_defaults !! key
           end
      else hard_coded_defaults !! key in
    if decide (key = PROVIDER_KEY) then
      match environ !! MODEL_PROVIDER with Some v => Some v | None => from_file end
    else if decide (key = MODEL_NAME_KEY) then
      match environ !! MODEL_NAME with Some v => Some v | None => from_file end
    else from_file.
Proof.
  cbv zeta. unfold get_default_config, getenv.
  rewrite !lookup_assign, !defaults_from_file.
  pose proof model_name_is_not_provider as Hne.
  destruct (decide (key = PROVIDER_KEY)) as [->|Hp].
  - destruct (decide (PROVIDER_KEY = PROVIDER_KEY)) as [_|E]; [|congruence].
    destruct (decide (MODEL_NAME_KEY = PROVIDER_KEY)) as [E|_]; [congruence|].
    destruct (environ !! MODEL_PROVIDER); [reflexivity|].
    match goal with |- match ?o with _ => _ end = _ => destruct o end; reflexivity.
  - destruct (decide (PROVIDER_KEY = key)) as [E|_]; [congruence|].
    destruct (decide (key = MODEL_NAME_KEY)) as [->|Hm].
    + destruct (decide (MODEL_NAME_KEY = MODEL_NAME_KEY)) as [_|E]; [|congruence].
      destruct (environ !! MODEL_NAME); [reflexivity|].
      match goal with |- match ?o with _ => _ end = _ => destruct o end; reflexivity.
    + destruct (decide (MODEL_NAME_KEY = key)) as [E|_]; [congruence|reflexivity].
Qed.

Lemma hard_coded_keys (key : str) :
  is_Some (hard_coded_defaults !! key) <-> key ∈ default_keys.
Proof.
  rewrite <- elem_of_dom.
  replace (dom hard_coded_defaults) with (list_to_set default_keys : gset str).
  - apply elem_of_list_to_set.
  - unfold hard_coded_defaults, default_keys. rewrite !dom_insert_L, dom_empty_L.
    simpl. set_solver.
Qed.

(** X18. The dictionary [get_default_config] returns has the four keys of
    the defaults and no other, whatever the file and the environment hold:
    other options of a [default] section are left out. *)
Theorem X18_default_config_keys
    (self_config : ConfigParser) (environ : gmap str str) (key : str) :
  is_Some (get_default_config self_config environ !! key) <-> key ∈ default_keys.
Proof.
  rewrite get_default_config_lookup. cbv zeta.
  assert (Hfile : is_Some (if decide (key ∈ default_keys)
                           then match get self_config DEFAULT_SECTION key None with
                                | Some v => Some v
                                | None => hard_coded_defaults !! key
                                end
                           else hard_coded_defaults !! key) <-> key ∈ default_keys).
  { destruct (decide (key ∈ default_keys)) as [H|H].
    - destruct (get self_config DEFAULT_SECTION key None); [split; eauto|].
      apply hard_coded_keys.
    - apply hard_coded_keys. }
  destruct (decide (key = PROVIDER_KEY)) as [->|Hp].
  - destruct (environ !! MODEL_PROVIDER); [|exact Hfile].
    split; [intros _|eauto]. apply list_elem_of_further, list_elem_of_here.
  - destruct (decide (key = MODEL_NAME_KEY)) as [->|Hm]; [|exact Hfile].
    destruct (environ !! MODEL_NAME); [|exact Hfile].
    split; [intros _|eauto]. apply list_elem_of_here.
Qed.

(** X19. For the model name and the provider the environment comes first:
    the variable [MODEL_NAME] (and [MODEL_PROVIDER]) when it is set, even to
    the empty string; otherwise the option of the [default] section of the
    file; otherwise the value written in the code. *)
Theorem X19_default_config_environment_first
    (self_config : ConfigParser) (environ : gmap str str) :
  get_default_config self_config environ !! MODEL_NAME_KEY
  = Some (default (default (lit "gpt-3.5-turbo")
                           (get self_config DEFAULT_SECTION MODEL_NAME_KEY None))
                  (environ !! MODEL_NAME))
  /\ get_default_config self_config environ !! PROVIDER_KEY
     = Some (default (default (lit "auto")
                              (get self_config DEFAULT_SECTION PROVIDER_KEY None))
                     (environ !! MODEL_PROVIDER)).
Proof.
  rewrite !get_default_config_lookup. cbv zeta.
  pose proof model_name_is_not_provider as Hne. split.
  - destruct (decide (MODEL_NAME_KEY = PROVIDER_KEY)) as [E|_]; [congruence|].
    destruct (decide (MODEL_NAME_KEY = MODEL_NAME_KEY)) as [_|E]; [|congruence].
    destruct (decide (MODEL_NAME_KEY ∈ default_keys)) as [_|E]; [|exfalso; apply E; set_solver].
    destruct (environ !! MODEL_NAME); [reflexivity|].
    destruct (get self_config DEFAULT_SECTION MODEL_NAME_KEY None); reflexivity.
  - destruct (decide (PROVIDER_KEY = PROVIDER_KEY)) as [_|E]; [|congruence].
    destruct (decide (PROVIDER_KEY ∈ default_keys)) as [_|E]; [|exfalso; apply E; set_solver].
    destruct (environ !! MODEL_PROVIDER); [reflexivity|].
    destruct (get self_config DEFAULT_SECTION PROVIDER_KEY None); reflexivity.
Qed.

(** X20. The translator id and the token limit do not depend on the
    environment: each is the option of the [default] section of the file,
    or the value written in the code when the file gives none. *)
Theorem X20_default_config_file_only
    (self_config : ConfigParser) (environ : gmap str str) :
  get_default_config self_config environ !! TRANSLATOR_ID_KEY
  = Some (default (lit "FILL_YOUR_GITHUB_ID_HERE")
                  (get self_config DEFAULT_SECTION TRANSLATOR_ID_KEY None))
  /\ get_default_config self_config environ !! MAX_TOKENS_KEY
     = Some (default (lit "800") (get self_config DEFAULT_SECTION MAX_TOKENS_KEY None)).
Proof.
  rewrite !get_default_config_lookup. cbv zeta. split.
  - destruct (decide (TRANSLATOR_ID_KEY = PROVIDER_KEY)) as [E|_];
      [vm_compute in E; discriminate|].
    destruct (decide (TRANSLATOR_ID_KEY = MODEL_NAME_KEY)) as [E|_];
      [vm_compute in E; discriminate|].
    destruct (decide (TRANSLATOR_ID_KEY ∈ default_keys)) as [_|E];
      [|exfalso; apply E; set_solver].
    destruct (get self_config DEFAULT_SECTION TRANSLATOR_ID_KEY None); reflexivity.
  - destruct (decide (MAX_TOKENS_KEY = PROVIDER_KEY)) as [E|_];
      [vm_compute in E; discriminate|].
    destruct (decide (MAX_TOKENS_KEY = MODEL_NAME_KEY)) as [E|_];
      [vm_compute in E; discriminate|].
    destruct (decide (MAX_TOKENS_KEY ∈ default_keys)) as [_|E];
      [|exfalso; apply E; set_solver].
    destruct (get self_config DEFAULT_SECTION MAX_TOKENS_KEY None); reflexivity.
Qed.

End Defaults.

Section Validation.

Import ConfigManager.

Variable lower : str -> str.

Lemma get_without_section (config : ConfigParser) section name fallback :
  has_section config section = false -> get config section name fallback = fallback.
Proof.
  unfold has_section, get. destruct (_sections config !! section); [discriminate|reflexivity].
Qed.

Lemma equals_true (x : option str) s : equals x s = true <-> x = Some s.
Proof.
  destruct x as [v|]; simpl; [|split; discriminate].
  rewrite eqb_eq. split; congruence.
Qed.

(** Whether [get_openai_config] finds a key does not depend on the URL it
    is given. *)
Lemma openai_key_without_url (self_config : ConfigParser) (environ : gmap str str)
    api_key base_url base_url' :
  cfg_api_key (get_openai_config self_config environ api_key base_url)
  = cfg_api_key (get_openai_config self_config environ api_key base_url').
Proof. rewrite !api_key_resolved. reflexivity. Qed.

(** X21. With the same file, environment and keyword arguments, the
    provider [auto] is valid exactly when [openai] or [qwen] is; the URL
    given for [openai] plays no part. The providers are those whose lower
    case is the name. *)
Theorem X21_auto_valid_iff_openai_or_qwen
    (self_config : ConfigParser) (environ : gmap str str)
    (auto openai qwen : str) (kwargs : gmap str (option str)) :
  lower auto = AUTO ->
  lower openai = OPENAI ->
  lower qwen = QWEN ->
  validate_config lower self_config environ auto kwargs
  = validate_config lower self_config environ openai kwargs
    || validate_config lower self_config environ qwen kwargs.
Proof.
  intros Ha Ho Hq. unfold validate_config. rewrite Ha, Ho, Hq.
  change (PyStr.eqb AUTO OPENAI) with false. change (PyStr.eqb AUTO QWEN) with false.
  change (PyStr.eqb QWEN OPENAI) with false.
  rewrite !eqb_refl. cbv zeta.
  rewrite (openai_key_without_url _ _ _ None (kwargs_get kwargs KW_OPENAI_BASE_URL)).
  reflexivity.
Qed.

(** X22. The provider [openai] is valid exactly when a key can be found: an
    argument [openai_api_key] that is not empty, or an [api_key] in the
    [openai] section of the file that is neither empty nor the placeholder,
    or an environment variable [OPENAI_API_KEY] that is not empty. *)
Theorem X22_openai_valid_iff_some_key
    (self_config : ConfigParser) (environ : gmap str str)
    (provider : str) (kwargs : gmap str (option str)) :
  lower provider = OPENAI ->
  validate_config lower self_config environ provider kwargs = true
  <-> truthy (kwargs_get kwargs KW_OPENAI_API_KEY) = true
      \/ (truthy (get self_config OPENAI API_KEY None) = true
          /\ get self_config OPENAI API_KEY None <> Some PLACEHOLDER)
      \/ truthy (environ !! OPENAI_API_KEY) = true.
Proof.
  intros Hl. unfold validate_config. rewrite Hl, eqb_refl. cbv zeta.
  rewrite api_key_resolved. cbv zeta. unfold getenv.
  replace (match environ !! OPENAI_API_KEY with Some value => Some value | None => None end)
    with (environ !! OPENAI_API_KEY) by (destruct (environ !! OPENAI_API_KEY); reflexivity).
  destruct (truthy (kwargs_get kwargs KW_OPENAI_API_KEY)) eqn:Ha.
  - cbn [negb andb]. rewrite Ha. cbn [negb]. rewrite Ha. tauto.
  - cbn [negb andb].
    destruct (has_section self_config OPENAI) eqn:Hs.
    + destruct (equals (get self_config OPENAI API_KEY None) PLACEHOLDER) eqn:He.
      * apply equals_true in He. rewrite He. cbn [truthy negb].
        split; [tauto|]. intros [H|[[_ H]|H]]; [discriminate|congruence|exact H].
      * assert (Hp : get self_config OPENAI API_KEY None <> Some PLACEHOLDER).
        { intros H. apply equals_true in H. congruence. }
        destruct (truthy (get self_config OPENAI API_KEY None)) eqn:Hf; cbn [negb].
        -- rewrite Hf. tauto.
        -- split; [tauto|]. intros [H|[[H _]|H]]; [discriminate|discriminate|exact H].
    + rewrite Ha. cbn [negb]. rewrite (get_without_section _ _ _ _ Hs). cbn [truthy].
      split; [tauto|]. intros [H|[[H _]|H]]; [discriminate|discriminate|exact H].
Qed.

End Validation.

(** ** More concrete runs *)

Section MoreRunsConcrete.

Import Scenario ConfigManager.

(** X6, on a comment indented with two spaces. *)
Lemma X6_witness :
  translate_code_line (C := scripted []) (replicate 2 SPACE ++ lit "# note")
    [Return (lit "# zh ")]
  = (Return (replicate 2 SPACE ++ parse (lit "# zh ")), [],
     [EvLLM (translation_template (strip (replicate 2 SPACE ++ lit "# note")))
        (Return (lit "# zh "))]).
Proof.
  apply (X6_space_indentation_kept (C := scripted []) 2 (lit "# note")); reflexivity.
Defined.

(** X7, on three paragraphs whose second one meets a timeout: three texts
    come back. *)
Lemma X7_witness :
  length [lit "yi"; FAILED ++ lit "two"; lit "san"]
  = length [mkTextChunk (lit "one") PARAGRAPH; mkTextChunk (lit "two") PARAGRAPH;
            mkTextChunk (lit "three") PARAGRAPH].
Proof.
  refine (proj1 (X7_one_translation_per_chunk (C := scripted [])
                   [mkTextChunk (lit "one") PARAGRAPH; mkTextChunk (lit "two") PARAGRAPH;
                    mkTextChunk (lit "three") PARAGRAPH]
                   [Return (lit "yi"); Raise timeout; Return (lit "san")]
                   [lit "yi"; FAILED ++ lit "two"; lit "san"] [] _ _)).
  reflexivity.
Defined.

(** X9, on a run interrupted while its only chunk is translated. *)
Lemma X9_witness :
  raised_by_last_call interrupt
    [EvOriginalSummary hello (Return hello); EvChunk hello (Return one_paragraph);
     EvLLM (translation_template hello) (Raise interrupt)].
Proof.
  apply (X9_only_collaborators_abort_a_run (C := scripted one_paragraph)
           hello [Raise interrupt] interrupt []).
  reflexivity.
Defined.

(** X10, on a run whose summary generator fails on the retranslation. *)
Lemma X10_witness :
  translate_content (C := fragile one_paragraph ni_hao_again) hello
    [Return ni_hao; Return (lit " Ni hao! ")]
  = (Raise timeout, [],
     first_calls
       ++ [EvLLM (retranslation_template hello (lit "gap")) (Return (lit " Ni hao! "));
           EvTranslatedSummary ni_hao_again (Raise timeout)]).
Proof.
  refine (proj1 (X10_failed_second_check_aborts (C := fragile one_paragraph ni_hao_again)
                   hello [Return ni_hao; Return (lit " Ni hao! ")]
                   hello one_paragraph ni_hao ni_hao (verdict hello ni_hao)
                   [Return (lit " Ni hao! ")] first_calls (lit " Ni hao! ") [] _ _ _ _ _)
                timeout [] _).
  - unfold first_pass; do 6 eexists; repeat split; reflexivity.
  - reflexivity.
  - vm_compute. discriminate.
  - reflexivity.
  - vm_compute. discriminate.
  - reflexivity.
Defined.

(** X11, on the empty document. *)
Lemma X11_witness :
  translate_content (C := scripted []) [] []
  = (Return ([], mkStats [] [] (verdict [] []) 0 10), [],
     [EvOriginalSummary [] (Return []); EvChunk [] (Return []);
      EvTranslatedSummary [] (Return []); EvCompare [] [] (Return (verdict [] []))]).
Proof.
  apply (X11_no_chunk_gives_empty_translation (C := scripted []) [] [] [] [] [] [] []
           (verdict [] []) []); try reflexivity.
  vm_compute. intros [H _]. discriminate.
Defined.

(** X12, on the run that adopts a retranslation given with spaces around
    it. *)
Lemma X12_witness : strip ni_hao_again = ni_hao_again.
Proof.
  apply (X12_returned_translation_is_stripped (C := scripted one_paragraph)
           hello [Return ni_hao; Return (lit " Ni hao! ")] ni_hao_again
           (mkStats hello ni_hao_again (verdict hello ni_hao_again) 1 5) []
           (first_calls
              ++ [EvLLM (retranslation_template hello (lit "gap")) (Return (lit " Ni hao! "));
                  EvTranslatedSummary ni_hao_again (Return ni_hao_again);
                  EvCompare hello ni_hao_again (Return (verdict hello ni_hao_again))])).
  reflexivity.
Defined.

(** X14, when the chain of the context and the model both time out: the
    failure marker comes back. *)
Lemma X14_witness :
  translate_with_context (C := scripted []) failing_chain hello (lit "before") [Raise timeout]
  = (Return (FAILED ++ hello), [], [EvLLM (translation_template hello) (Raise timeout)]).
Proof.
  apply (X14_translate_with_context_falls_back (C := scripted []) failing_chain
           hello (lit "before") [Raise timeout] timeout [Raise timeout] []).
  - vm_compute. discriminate.
  - reflexivity.
  - reflexivity.
Defined.

(** X21, with provider names in upper and mixed case and a key in the
    file. *)
Lemma X21_witness :
  validate_config ascii_lower (config_with_openai {[ API_KEY := lit "sk-file" ]}) ∅
    (lit "AUTO") ∅
  = validate_config ascii_lower (config_with_openai {[ API_KEY := lit "sk-file" ]}) ∅
      (lit "OpenAI") ∅
    || validate_config ascii_lower (config_with_openai {[ API_KEY := lit "sk-file" ]}) ∅
         (lit "Qwen") ∅.
Proof.
  apply (X21_auto_valid_iff_openai_or_qwen ascii_lower); vm_compute; reflexivity.
Defined.

(** X22, with a key in the environment only. *)
Lemma X22_witness :
  validate_config ascii_lower (config_with_openai ∅) {[ OPENAI_API_KEY := lit "sk-env" ]}
    (lit "OPENAI") ∅ = true.
Proof.
  apply (X22_openai_valid_iff_some_key ascii_lower (config_with_openai ∅)
           {[ OPENAI_API_KEY := lit "sk-env" ]} (lit "OPENAI") ∅).
  - vm_compute. reflexivity.
  - right. right. vm_compute. reflexivity.
Defined.

End MoreRunsConcrete.

(** ** What the model is asked *)

Section Asked.

Context {W Summary : Type} {C : Collaborators W Summary}.

(** X23. Whenever the retranslation chain is called in a run of
    [translate_content], it is given the whole document the run was given,
    not a chunk of it nor the merged translation, together with the missing
    content of a comparison of that run that found the translation
    incomplete. *)
Theorem X23_retranslation_is_asked_of_the_document content (w : W) o m r :
  In (EvLLM (retranslation_template o m) r) (translate_content content w).2 ->
  o = content
  /\ exists os ts cr,
       In (EvCompare os ts (Return cr)) (translate_content content w).2
       /\ (completeness_score cr < 8)%Z
       /\ missing_content cr <> NONE_MISSING
       /\ m = missing_content cr.
Proof.
  destruct (translate_content_cases content w)
    as [(os & chunks & merged & ts & cr & w5 & t5 & Hfp & ->)|(e & w' & t & -> & H0 & _)].
  - rewrite after_trace. intros Hin.
    pose proof (first_pass_no_retranslation _ _ _ _ _ _ _ _ _ Hfp) as Hno.
    assert (Hcmp : In (EvCompare os ts (Return cr)) t5).
    { destruct Hfp as (w1 & w2 & tcs & w3 & t3 & w4 & _ & _ & _ & _ & _ & _ & ->).
      apply in_or_app. right. apply in_or_app. right. right. left. reflexivity. }
    apply in_app_or in Hin as [Hin|Hin].
    { apply (calls_zero_in _ _ _ Hno) in Hin. discriminate. }
    assert (Hgoal : forall r' : result str,
               incomplete cr ->
               @EvLLM Summary (retranslation_template content (missing_content cr)) r'
               = EvLLM (retranslation_template o m) r ->
               o = content
               /\ exists os0 ts0 cr0,
                    In (EvCompare os0 ts0 (Return cr0))
                       (t5 ++ (second_pass content os chunks merged ts cr w5).2)
                    /\ (completeness_score cr0 < 8)%Z
                    /\ missing_content cr0 <> NONE_MISSING
                    /\ m = missing_content cr0).
    { intros r' [Hs Hm] H. injection H as <- <- _. split; [reflexivity|].
      exists os, ts, cr. split; [apply in_or_app; left; exact Hcmp|]. auto. }
    destruct ((completeness_score cr <? 8)%Z
              && negb (PyStr.eqb (missing_content cr) NONE_MISSING)) eqn:Hc.
    + apply incomplete_true in Hc. revert Hgoal Hin.
      destruct (llm (retranslation_template content (missing_content cr)) w5)
        as [[text|e] w6] eqn:E.
      * destruct (parse text) as [|c0 r0] eqn:Ep.
        -- rewrite (second_pass_empty _ _ _ _ _ _ _ _ _ Hc E Ep).
           intros Hgoal [Hin|[]]. exact (Hgoal _ Hc Hin).
        -- rewrite (second_pass_adopted _ _ _ _ _ _ _ _ _ Hc E) by congruence.
           rewrite Ep.
           destruct (generate_translated_summary (c0 :: r0) w6) as [[ts'|e] w7];
             [destruct (compare_summaries os ts' w7) as [[cr'|e] w8]|];
             simpl; intros Hgoal Hin;
             repeat (destruct Hin as [Hin|Hin]; try discriminate; try contradiction);
             exact (Hgoal _ Hc Hin).
      * rewrite (second_pass_failed _ _ _ _ _ _ _ _ _ Hc E).
        intros Hgoal [Hin|[]]. exact (Hgoal _ Hc Hin).
    + apply incomplete_false in Hc. revert Hin.
      rewrite (second_pass_complete _ _ _ _ _ _ _ Hc). intros [].
  - simpl. intros Hin. apply (calls_zero_in _ _ _ H0) in Hin. discriminate.
Qed.

(** X24. When every call of the model raises, whatever it raises,
    code-block translation returns the block exactly as it was given, comment
    lines included. *)
Theorem X24_code_block_unchanged_when_model_is_down (code_content : str) (w : W) :
  (forall p w0, exists e w1, llm p w0 = (Raise e, w1)) ->
  exists w' t, _translate_code_block code_content w = (Return code_content, w', t).
Proof.
  intros Hdown.
  assert (Hloop : forall lines acc (w0 : W), exists w' t,
             for_append lines translate_code_line acc w0 = (Return (acc ++ lines), w', t)).
  { induction lines as [|line lines IH]; intros acc w0.
    - exists w0, []. simpl. unfold ret. rewrite app_nil_r. reflexivity.
    - rewrite for_append_cons. destruct (is_comment_line line) eqn:Hc.
      + destruct (Hdown (translation_template (strip line)) w0) as (e & w1 & E).
        rewrite (translate_code_line_failed _ _ _ _ Hc E).
        destruct (IH (acc ++ [line]) w1) as (w' & t & ->).
        rewrite <- app_assoc. simpl. eauto.
      + rewrite (translate_code_line_other _ _ Hc).
        destruct (IH (acc ++ [line]) w0) as (w' & t & ->).
        rewrite <- app_assoc. simpl. eauto. }
  destruct (Hloop (split code_content NEWLINE) [] w) as (w' & t & E).
  exists w', (t ++ []). unfold _translate_code_block, bind. rewrite E. simpl.
  unfold ret. simpl. rewrite join_split_lines. reflexivity.
Qed.

End Asked.

Section AskedConcrete.

Import Scenario.

(** X23, on the run whose retranslation is adopted. *)
Lemma X23_witness :
  hello = hello
  /\ exists os ts cr,
       In (EvCompare os ts (Return cr))
          (translate_content (C := scripted one_paragraph) hello
             [Return ni_hao; Return (lit " Ni hao! ")]).2
       /\ (completeness_score cr < 8)%Z
       /\ missing_content cr <> NONE_MISSING
       /\ lit "gap" = missing_content cr.
Proof.
  apply (X23_retranslation_is_asked_of_the_document (C := scripted one_paragraph)
           hello [Return ni_hao; Return (lit " Ni hao! ")] hello (lit "gap")
           (Return (lit " Ni hao! "))).
  vm_compute. do 5 right. left. reflexivity.
Defined.

(** X24, with a model that is down. *)
Lemma X24_witness :
  exists w' t,
    _translate_code_block (C := model_down) three_lines tt = (Return three_lines, w', t).
Proof.
  apply (X24_code_block_unchanged_when_model_is_down (C := model_down)).
  intros p w0. exists timeout, w0. reflexivity.
Defined.

End AskedConcrete.
